(** * MCP-WIP: widget registry, renderer and chat-turn orchestrator

    A shallow embedding of

    - [sdks/react/registry.ts]  ([registerWidgets], [getWidget] and the
      [WidgetRenderer] component), and
    - [example/chat/app/routes/home.tsx]  ([handleAddWidget],
      [handleRemoveWidget], [sendMessage]),

    followed by the properties of the widget lifecycle and context bridge.

    JavaScript objects used as dictionaries are finite maps ([gmap]) over
    their own properties; React state cells are fields of an explicit state
    record that every handler threads through; network calls and the
    JavaScript built-ins whose result depends on the outside world are
    inputs of the handlers, and the requests they issue are logged. *)

From Stdlib Require Import Floats.
From stdpp Require Import base option list strings gmap fin_maps.

Open Scope string_scope.
Open Scope list_scope.
Set Warnings "-register-all".

(* ===================================================================== *)
(** * JavaScript values                                                    *)
(* ===================================================================== *)

Module JS.

(** The values [JSON.parse] can return.  Numbers are IEEE-754 doubles,
    as in JavaScript.  An object is given by its own properties. *)
Inductive json : Type :=
  | JNull
  | JBool (b : bool)
  | JNumber (x : float)
  | JString (s : string)
  | JArray (items : list json)
  | JObject (fields : list (string * json)).

(** A JavaScript value that may be [undefined]: [None] is [undefined]. *)
Abbreviation jsval := (option json).

(** ToBoolean: the falsy values are [null], [false], [0], [-0], [NaN]
    and the empty string, next to [undefined]. *)
Definition truthy (v : json) : bool :=
  match v with
  | JNull => false
  | JBool b => b
  | JNumber x => negb (PrimFloat.eqb x 0%float) && negb (PrimFloat.is_nan x)
  | JString s => negb (String.eqb s "")
  | JArray _ => true
  | JObject _ => true
  end.

Definition truthy_val (v : jsval) : bool :=
  match v with
  | None => false
  | Some j => truthy j
  end.

(** ToBoolean of a string-or-undefined. *)
Definition truthy_str (s : option string) : bool :=
  match s with
  | None => false
  | Some s => negb (String.eqb s "")
  end.

Fixpoint assoc (k : string) (fields : list (string * json)) : jsval :=
  match fields with
  | [] => None
  | (k', v) :: rest => if String.eqb k k' then Some v else assoc k rest
  end.

(** Outcome of an expression that may throw. *)
Inductive completion (A : Type) : Type :=
  | Throws
  | Normal (a : A).
Arguments Throws {A}.
Arguments Normal {A} a.

(** [v.k] for the property names read in this program ([uri], [text],
    [parameters]): reading a property of [null] throws a TypeError; no
    prototype of a number, boolean, string or array defines one of these
    names, so the read is [undefined] there; an object answers with its
    own property. *)
Definition get_prop (v : json) (k : string) : completion jsval :=
  match v with
  | JNull => Throws
  | JObject fields => Normal (assoc k fields)
  | _ => Normal None
  end.

(** [typeof v === "string" ? v : null], on a value that may be
    [undefined]. *)
Definition string_or_null (v : jsval) : jsval :=
  match v with
  | Some (JString s) => Some (JString s)
  | _ => None
  end.

(** The outcome of [JSON.parse(text)]: the parser is the JavaScript
    built-in, so its outcome on a given text comes with the text. *)
Inductive parsed : Type :=
  | SyntaxError
  | Parsed (v : json).

End JS.

Import JS.

(* ===================================================================== *)
(** * The widget registry  (sdks/react/registry.ts)                        *)
(* ===================================================================== *)

Module Registry.

Abbreviation WidgetId := string.

Inductive Visualization : Type := small | both | indipendent.

(** What a widget hands back from [getWidgetContext()]:
    [Record<string, any> | string | undefined]. *)
Inductive WidgetContext : Type :=
  | CtxUndefined
  | CtxString (s : string)
  | CtxRecord (fields : gmap string jsval).

(** [WidgetComponent]: a function component with static members.  The
    bodies of the hooks belong to the widgets; the registry and the
    renderer only depend on whether the optional hooks are defined. *)
Record WidgetComponent : Type := {
  widgetName : string;
  description : string;
  visualization : Visualization;
  initWidget : bool;            (* [initWidget] is defined *)
  getWidgetContext : bool;      (* [getWidgetContext] is defined *)
}.

(** [const registry: Record<WidgetId, WidgetComponent> = {}]: an object
    literal.  Its own properties are the registered widgets; its
    prototype is [Object.prototype]. *)
Abbreviation registry_t := (gmap WidgetId WidgetComponent).

Definition registry0 : registry_t := ∅.

(** The property names [Object.prototype] defines (ECMAScript 20.1.3 and
    Annex B.2.2).  [__proto__] is an accessor answering with
    [Object.prototype] itself; all the others are functions. *)
Definition Object_prototype : list string :=
  [ "constructor"; "hasOwnProperty"; "isPrototypeOf";
    "propertyIsEnumerable"; "toLocaleString"; "toString"; "valueOf";
    "__proto__"; "__defineGetter__"; "__defineSetter__";
    "__lookupGetter__"; "__lookupSetter__" ].

(** What [registry[id]] evaluates to when it is not [undefined]. *)
Inductive resolved : Type :=
  | Registered (w : WidgetComponent)
  | Inherited (member : string).

(** [Object.assign(registry, entries)]: every entry becomes an own
    property of the registry, replacing an earlier one under the same
    identifier.  This is what the call does for entries written as in
    [widgets/register.ts], an object literal keyed by identifiers.  An own
    key [__proto__] of [entries] is the one exception: [Object.assign]
    hands its value to the setter of [Object.prototype], which replaces the
    prototype of the registry instead of storing an entry.  What is proved
    below about resolving after a registration therefore takes
    [assignable entries] as a hypothesis. *)
Definition registerWidgets (entries : registry_t) (registry : registry_t)
  : registry_t :=
  entries ∪ registry.

(** [return registry[id]]: an ordinary property read.  An own property
    wins; otherwise the read follows the prototype chain to
    [Object.prototype]; otherwise it is [undefined] ([None]). *)
Definition getWidget (registry : registry_t) (id : WidgetId)
  : option resolved :=
  match registry !! id with
  | Some w => Some (Registered w)
  | None =>
      if bool_decide (id ∈ Object_prototype)
      then Some (Inherited id)
      else None
  end.

(** [Widget?.initWidget] is defined: only registered widgets carry the
    hook, no member of [Object.prototype] has a property of that name. *)
Definition has_initWidget (r : option resolved) : bool :=
  match r with
  | Some (Registered w) => initWidget w
  | _ => false
  end.

End Registry.

Import Registry.

(* ===================================================================== *)
(** * The renderer  (sdks/react/registry.ts, [WidgetRenderer])             *)
(* ===================================================================== *)

Module Renderer.

(** [type WParams = { name: string; value?: any }] *)
Record WParams : Type := { name : string; value : jsval }.

(** The widget-native parameter object, [Record<string, any>]. *)
Abbreviation ParamObj := (gmap string jsval).

(** [Object.fromEntries(entries)]: the entries are added in order, a
    later entry replacing an earlier one under the same key. *)
Definition fromEntries (entries : list (string * jsval)) : ParamObj :=
  foldl (λ obj e, <[e.1 := e.2]> obj) ∅ entries.

(** [Array.isArray(parameters)
       ? Object.fromEntries(parameters.map(p => [p.name, p.value]))
       : undefined] *)
Definition paramObj (parameters : option (list WParams)) : option ParamObj :=
  match parameters with
  | Some ps => Some (fromEntries (map (λ p, (name p, value p)) ps))
  | None => None
  end.

(** The props of [WidgetRenderer]. *)
Record Props : Type := { uri : string; parameters : option (list WParams) }.

(** What the component returns. *)
Inductive Element : Type :=
  | UnknownWidget (uri : string)
      (* <div>❌ Unknown widget: {uri}</div> *)
  | WidgetInstance (Widget : resolved) (parameters : option ParamObj).
      (* <Widget parameters={params} /> *)

(** One call [Widget.initWidget(params, setParams)]; the second argument
    is always the setter of the [params] state cell. *)
Record InitCall : Type := { init_uri : string; init_params : option ParamObj }.

(** The memory React keeps for a mounted [WidgetRenderer]: the cell of
    [useState(paramObj)] and the dependency array [[uri]] of the last
    effect. *)
Record Hooks : Type := { state_params : option ParamObj; effect_deps : string }.

(** One execution of the component body, followed by its effects.
    [hooks = None] is the mounting render.  [useState] takes its argument
    on mount only; the effect runs on mount and whenever [uri] differs
    from the dependency of the previous render, and calls
    [Widget?.initWidget?.(params, setParams)] with the [params] of this
    render.  (Effects run as in a production build: the second run of
    every effect that React's StrictMode adds during development is not
    part of the model.) *)
Definition WidgetRenderer (registry : registry_t) (props : Props)
    (hooks : option Hooks) : Element * Hooks * list InitCall :=
  let Widget := getWidget registry (uri props) in
  let paramObj := paramObj (parameters props) in
  let params :=
    match hooks with
    | None => paramObj
    | Some h => state_params h
    end in
  let effect_runs :=
    match hooks with
    | None => true
    | Some h => negb (String.eqb (uri props) (effect_deps h))
    end in
  let calls :=
    if effect_runs && has_initWidget Widget
    then [ {| init_uri := uri props; init_params := params |} ]
    else [] in
  let element :=
    match Widget with
    | None => UnknownWidget (uri props)
    | Some W => WidgetInstance W params
    end in
  (element, {| state_params := params; effect_deps := uri props |}, calls).

(** ** A mounted renderer over time *)

(** What can happen to a mounted renderer: its parent renders it again
    (with the same or other props), or the widget calls the [setParams]
    it was given. *)
Inductive Event : Type :=
  | Rerender (props : Props)
  | SetParams (newParams : option ParamObj).

Record Instance : Type := {
  cur_props : Props;
  hooks : Hooks;
  shown : Element;
  init_log : list InitCall;      (* every [initWidget] call so far *)
}.

Definition mount (registry : registry_t) (props : Props) : Instance :=
  let '(element, h, calls) := WidgetRenderer registry props None in
  {| cur_props := props; hooks := h; shown := element; init_log := calls |}.

Definition step (registry : registry_t) (inst : Instance) (ev : Event)
  : Instance :=
  match ev with
  | Rerender props =>
      let '(element, h, calls) :=
        WidgetRenderer registry props (Some (hooks inst)) in
      {| cur_props := props; hooks := h; shown := element;
         init_log := init_log inst ++ calls |}
  | SetParams newParams =>
      (* the state cell is replaced and the component renders again with
         the props it already has *)
      let h0 := {| state_params := newParams;
                   effect_deps := effect_deps (hooks inst) |} in
      let '(element, h, calls) :=
        WidgetRenderer registry (cur_props inst) (Some h0) in
      {| cur_props := cur_props inst; hooks := h; shown := element;
         init_log := init_log inst ++ calls |}
  end.

Definition run (registry : registry_t) (inst : Instance)
    (events : list Event) : Instance :=
  foldl (step registry) inst events.

(** The identifiers the parent asks for after the mount, in order. *)
Definition rerendered (events : list Event) : list string :=
  omap (λ ev, match ev with
              | Rerender p => Some (uri p)
              | SetParams _ => None
              end) events.

(** The identifiers a renderer shows, in order: the one it is mounted
    with and the one of every later render by the parent. *)
Definition shown_uris (props : Props) (events : list Event) : list string :=
  uri props :: rerendered events.

(** The dependency React remembers is the identifier being shown. *)
Definition deps_current (inst : Instance) : Prop :=
  effect_deps (hooks inst) = uri (cur_props inst).

(** The identifier changes of a sequence: its first element and every
    element that differs from its predecessor. *)
Fixpoint changes_from (prev : string) (uris : list string) : list string :=
  match uris with
  | [] => []
  | u :: rest =>
      if String.eqb u prev then changes_from u rest
      else u :: changes_from u rest
  end.

Definition changes (uris : list string) : list string :=
  match uris with
  | [] => []
  | u :: rest => u :: changes_from u rest
  end.

End Renderer.

Import Renderer.

(* ===================================================================== *)
(** * The chat page  (example/chat/app/routes/home.tsx)                    *)
(* ===================================================================== *)

Module Chat.

Inductive ChatRole : Type := user | assistant | tool | error | widget.

#[global] Instance ChatRole_eq_dec : EqDecision ChatRole.
Proof. solve_decision. Defined.

(** The body of a tool message:
    [typeof parsedContent === 'string'
       ? parsedContent : JSON.stringify(parsedContent, null, 2)]. *)
Inductive ToolBody : Type :=
  | Verbatim (s : string)
  | Stringified (v : json).

(** The [React.ReactNode]s this page puts into a message. *)
Inductive ReactNode : Type :=
  | Text (v : jsval)
      (* a string (or another JSON value) used as a child *)
  | ToolOutput (toolName : option string) (body : ToolBody)
      (* the <div> "Tool Output (toolName)" around <pre>body</pre> *)
  | WidgetRendererElement (uri : jsval) (parameters : jsval).
      (* <WidgetRenderer uri={uri} parameters={parameters} /> *)

Record ChatMessage : Type := { role : ChatRole; content : ReactNode }.

(** A JavaScript string as a value, and as a node. *)
Definition str (s : string) : jsval := Some (JString s).

(** [React.isValidElement(node)] *)
Definition isValidElement (node : ReactNode) : bool :=
  match node with
  | Text _ => false
  | ToolOutput _ _ | WidgetRendererElement _ _ => true
  end.

(** [element?.props?.uri] of a valid element. *)
Definition props_uri (node : ReactNode) : jsval :=
  match node with
  | WidgetRendererElement uri _ => uri
  | _ => None
  end.

(** The state cells of [Home] that the handlers below read or write. *)
Record State : Type := {
  messages : list ChatMessage;
  input : string;
  loading : bool;
  sessionId : string;
  openWidgetUri : jsval;          (* [None] is [null] *)
}.

Definition initial : State :=
  {| messages := []; input := ""; loading := false;
     sessionId := "default"; openWidgetUri := None |}.

Definition setMessages (f : list ChatMessage → list ChatMessage)
    (st : State) : State :=
  {| messages := f (messages st); input := input st; loading := loading st;
     sessionId := sessionId st; openWidgetUri := openWidgetUri st |}.

Definition setInput (s : string) (st : State) : State :=
  {| messages := messages st; input := s; loading := loading st;
     sessionId := sessionId st; openWidgetUri := openWidgetUri st |}.

Definition setLoading (b : bool) (st : State) : State :=
  {| messages := messages st; input := input st; loading := b;
     sessionId := sessionId st; openWidgetUri := openWidgetUri st |}.

Definition setOpenWidgetUri (u : jsval) (st : State) : State :=
  {| messages := messages st; input := input st; loading := loading st;
     sessionId := sessionId st; openWidgetUri := u |}.

(** ** [handleAddWidget] *)

Definition handleAddWidget (registry : registry_t) (uri : string)
    (st : State) : State :=
  match getWidget registry uri with
  | None => st                                   (* if (!widget) return; *)
  | Some _ =>
      let widgetMessage :=
        {| role := widget;
           content := WidgetRendererElement (str uri) None |} in
      setOpenWidgetUri (str uri)
        (setMessages (λ prev, prev ++ [widgetMessage]) st)
  end.

(** ** [handleRemoveWidget] *)

Definition is_widget (m : ChatMessage) : bool :=
  bool_decide (role m = widget).

(** [xs.findIndex(p)], with [None] for -1, and [xs.find(p)]. *)
Definition findIndex {A} (p : A → bool) (xs : list A) : option nat :=
  fst <$> list_find (λ x, p x = true) xs.

Definition find {A} (p : A → bool) (xs : list A) : option A :=
  snd <$> list_find (λ x, p x = true) xs.

Definition handleRemoveWidget (st : State) : State :=
  let prev := messages st in
  match findIndex is_widget (reverse prev) with
  | None => st                                   (* no widget to remove *)
  | Some lastWidgetIndex =>
      let actualIndex := length prev - 1 - lastWidgetIndex in
      let newMessages := take actualIndex prev ++ drop (actualIndex + 1) prev in
      let pointer :=
        match find is_widget (reverse newMessages) with
        | Some prevWidget =>
            if isValidElement (content prevWidget)
            then string_or_null (props_uri (content prevWidget))
            else None
        | None => None
        end in
      setOpenWidgetUri pointer (setMessages (λ _, newMessages) st)
  end.

(** ** [sendMessage] *)

(** [s.trim()].  Strings are sequences of 8-bit characters here, so the
    white space and line terminators are TAB, LF, VT, FF, CR, SPACE and
    NBSP. *)
Definition is_white_space (c : Ascii.ascii) : bool :=
  let n := Ascii.nat_of_ascii c in
  (Nat.leb 9 n && Nat.leb n 13) || Nat.eqb n 32 || Nat.eqb n 160.

Fixpoint trimStart (s : string) : string :=
  match s with
  | EmptyString => EmptyString
  | String c rest => if is_white_space c then trimStart rest else s
  end.

Definition trim (s : string) : string :=
  String.rev (trimStart (String.rev (trimStart s))).

(** One element of the array the chat endpoint answers with: an object,
    as the backend contract has it, whose [role], [tool], [result] and
    [content] are strings when present.  The fields are the ones the page
    reads; a missing field is [None].  The outcome of [JSON.parse] on
    [result] and on [content] comes with the entry. *)
Record ReplyEntry : Type := {
  msg_role : string;
  msg_tool : option string;
  msg_result : option string;
  msg_content : option string;
  result_json : parsed;          (* JSON.parse(msg.result) *)
  content_json : parsed;         (* JSON.parse(msg.content) *)
}.

Definition from_opt (s : option string) : string := default "" s.

(** The tool branch of the [flatMap] callback. *)
Definition tool_message (msg : ReplyEntry) : ChatMessage :=
  let body :=
    match result_json msg with
    | SyntaxError => Verbatim (from_opt (msg_result msg))   (* leave as is *)
    | Parsed (JString s) => Verbatim s
    | Parsed v => Stringified v
    end in
  {| role := tool; content := ToolOutput (msg_tool msg) body |}.

(** The [try] block of the assistant branch.  [Some] is a [return]
    inside the block; [None] means control leaves the block without
    returning: [JSON.parse] threw, a property read threw, or neither
    [parsed.uri] nor [parsed.text] is truthy. *)
Definition assistant_try (msg : ReplyEntry) (st : State)
  : option (State * list ChatMessage) :=
  match content_json msg with
  | SyntaxError => None
  | Parsed parsed =>
      match get_prop parsed "uri", get_prop parsed "parameters",
            get_prop parsed "text" with
      | Normal uri, Normal parameters, Normal text =>
          if truthy_val uri then
            let arr :=
              [ {| role := widget;
                   content := WidgetRendererElement uri parameters |} ] in
            let st := setOpenWidgetUri uri st in
            if truthy_val text
            then Some (st, arr ++ [ {| role := assistant; content := Text text |} ])
            else Some (st, arr)
          else if truthy_val text then
            Some (setOpenWidgetUri None st,
                  [ {| role := assistant; content := Text text |} ])
          else None
      | _, _, _ => None
      end
  end.

(** The callback of [data.flatMap]: the messages one entry contributes,
    and the state after the [setOpenWidgetUri] calls it makes. *)
Definition reply_callback (msg : ReplyEntry) (st : State)
  : State * list ChatMessage :=
  if String.eqb (msg_role msg) "tool" && truthy_str (msg_result msg) then
    (st, [ tool_message msg ])
  else if String.eqb (msg_role msg) "assistant"
          && truthy_str (msg_content msg) then
    match assistant_try msg st with
    | Some out => out
    | None =>
        (setOpenWidgetUri None st,
         [ {| role := assistant;
              content := Text (str (from_opt (msg_content msg))) |} ])
    end
  else (st, []).

Fixpoint flatMap (data : list ReplyEntry) (st : State)
  : State * list ChatMessage :=
  match data with
  | [] => (st, [])
  | msg :: rest =>
      let '(st1, here) := reply_callback msg st in
      let '(st2, there) := flatMap rest st1 in
      (st2, here ++ there)
  end.

(** What [await response.json()] can be. *)
Inductive ChatData : Type :=
  | DataArray (entries : list ReplyEntry)
  | DataOther.                    (* not an array: nothing is displayed *)

(** How the call of the chat endpoint, and the reading of its body, end.
    The elements of a [DataArray] are objects (an element that is a
    number, a string, a boolean or an array has none of the fields read
    and behaves as an entry without them).  [ArrayWithNull before] is an
    array that holds a [null]: [before] are the elements in front of the
    first one, and the callback of [flatMap] throws at [msg.role] when it
    comes to it. *)
Inductive ChatResponse : Type :=
  | FetchRejects                  (* network error *)
  | NotOk                         (* !response.ok *)
  | BodyNotJson                   (* response.json() rejects *)
  | Body (data : ChatData)
  | ArrayWithNull (before : list ReplyEntry).

(** The outside world during one turn.  The widgets keep the context they
    export in module-level variables that user interaction changes, so
    the outcome of [getWidget(openWidgetUri)?.getWidgetContext?.()] is an
    input of the turn, like the outcomes of the two network calls. *)
Record World : Type := {
  exported_context : completion WidgetContext;
  injection_response : completion unit;   (* [Throws]: the fetch rejects *)
  chat_response : ChatResponse;
}.

(** What a turn does to the outside, in order: the two network calls and
    the two failure reports (the [console.log] calls, which only print the
    reply, are left out). *)
Inductive Effect : Type :=
  | PostContextInjection (content : WidgetContext) (session_id : string)
  | PostChat (message : string) (session_id : string)
  | ConsoleWarn (what : string)
  | ConsoleError (what : string).

(** [context && Object.keys(context).length > 0] *)
Definition context_nonempty (context : WidgetContext) : bool :=
  match context with
  | CtxUndefined => false
  | CtxString s => negb (String.eqb s "")
  | CtxRecord fields => negb (bool_decide (fields = ∅))
  end.

(** Lines 106-124: context injection, with its own [try]/[catch]. *)
Definition inject_context (world : World) (st : State) : list Effect :=
  if truthy_val (openWidgetUri st) then
    match exported_context world with
    | Throws => [ ConsoleWarn "Context injection failed" ]
    | Normal context =>
        if context_nonempty context then
          PostContextInjection context (sessionId st) ::
          match injection_response world with
          | Throws => [ ConsoleWarn "Context injection failed" ]
          | Normal _ => []
          end
        else []
    end
  else [].

Definition error_message : ChatMessage :=
  {| role := error;
     content := Text (str "Failed to get response. Please try again.") |}.

Definition sendMessage (world : World) (st : State) : State * list Effect :=
  let userMessage := trim (input st) in
  if String.eqb userMessage "" || loading st then (st, [])
  else
    let st :=
      setLoading true
        (setMessages
           (λ prev, prev ++ [ {| role := user;
                                 content := Text (str userMessage) |} ])
           (setInput "" st)) in
    let injected := inject_context world st in
    let chat := PostChat userMessage (sessionId st) in
    let failed :=
      (setMessages (λ prev, prev ++ [ error_message ]) st,
       [ ConsoleError "Error:" ]) in
    let '(st, logged) :=
      match chat_response world with
      | FetchRejects | NotOk | BodyNotJson => failed
      | Body (DataArray data) =>
          let '(st, newMsgs) := flatMap data st in
          match newMsgs with
          | [] => (st, [])
          | _ :: _ => (setMessages (λ prev, prev ++ newMsgs) st, [])
          end
      | Body DataOther => (st, [])
      | ArrayWithNull before =>
          (* the entries in front of the null have made their
             setOpenWidgetUri calls; newMsgs is never assigned *)
          let '(st, _) := flatMap before st in
          (setMessages (λ prev, prev ++ [ error_message ]) st,
           [ ConsoleError "Error:" ])
      end in
    (setLoading false st, injected ++ chat :: logged).

(** ** Sequences of widget operations *)

(** The entry takes the assistant branch of the callback. *)
Definition is_assistant_entry (msg : ReplyEntry) : bool :=
  String.eqb (msg_role msg) "assistant" && truthy_str (msg_content msg).

(** The entry is an assistant entry whose content decodes to a value that
    names a widget: its [uri] is a non-empty string. *)
Definition opens_widget (msg : ReplyEntry) : bool :=
  is_assistant_entry msg &&
  match content_json msg with
  | Parsed v =>
      match get_prop v "uri" with
      | Normal (Some (JString u)) => negb (String.eqb u "")
      | _ => false
      end
  | SyntaxError => false
  end.

(** The reply of the turn is an array in which every assistant entry opens
    a widget (tool entries may come along). *)
Definition reply_opens_widgets (world : World) : bool :=
  match chat_response world with
  | Body (DataArray data) =>
      forallb (λ msg, opens_widget msg || negb (is_assistant_entry msg)) data
  | _ => false
  end.

(** What opens or removes a widget: the picker ([handleAddWidget]), the
    red button of a widget message ([handleRemoveWidget]), and a turn
    ([sendMessage], after the user typed [typed]) whose reply opens
    widgets. *)
Inductive Op : Type :=
  | AddWidget (uri : string)
  | RemoveWidget
  | Reply (typed : string) (world : World).

Definition op_opens_or_removes (op : Op) : bool :=
  match op with
  | Reply _ world => reply_opens_widgets world
  | AddWidget _ | RemoveWidget => true
  end.

Definition apply_op (registry : registry_t) (st : State) (op : Op) : State :=
  match op with
  | AddWidget uri => handleAddWidget registry uri st
  | RemoveWidget => handleRemoveWidget st
  | Reply typed world => fst (sendMessage world (setInput typed st))
  end.

(** The state after each operation of a sequence. *)
Fixpoint states (registry : registry_t) (st : State) (ops : list Op)
  : list State :=
  match ops with
  | [] => []
  | op :: rest =>
      let st' := apply_op registry st op in
      st' :: states registry st' rest
  end.

(** The widget messages of a log, oldest first, and the identifier of the
    most recent one: the [uri] its [WidgetRenderer] element was given
    ([None] when the log has no widget message). *)
Definition widget_messages (log : list ChatMessage) : list ChatMessage :=
  List.filter is_widget log.

Definition most_recent_widget (log : list ChatMessage) : jsval :=
  last (widget_messages log) ≫= (λ m, props_uri (content m)).

Definition pointer_names_most_recent_widget (st : State) : Prop :=
  openWidgetUri st = most_recent_widget (messages st).

(** Every widget message of the log holds a [WidgetRenderer] element whose
    [uri] is a string. *)
Definition widget_message_ok (m : ChatMessage) : bool :=
  match role m, content m with
  | widget, WidgetRendererElement (Some (JString _)) _ => true
  | widget, _ => false
  | _, _ => true
  end.

Definition log_ok (log : list ChatMessage) : Prop :=
  Forall (λ m, widget_message_ok m = true) log.

(** The world of a turn in which context injection fails: the widget's
    [getWidgetContext] throws, or it exports a non-empty context and the
    network call rejects.  (There is a widget to ask only when
    [openWidgetUri] is set.) *)
Definition injection_fails (world : World) : Prop :=
  exported_context world = Throws ∨
  ∃ context, exported_context world = Normal context ∧
             context_nonempty context = true ∧
             injection_response world = Throws.

(** The same world with nothing to inject. *)
Definition without_context (world : World) : World :=
  {| exported_context := Normal CtxUndefined;
     injection_response := Normal ();
     chat_response := chat_response world |}.

(** A field of the value an assistant entry decodes to: [undefined] when
    the field is missing and when the value has no fields at all ([null]
    included, where the read throws). *)
Definition decoded_field (v : json) (k : string) : jsval :=
  match get_prop v k with
  | Normal x => x
  | Throws => None
  end.

(** The user message a turn starts with, and the page once it is shown. *)
Definition user_message (st : State) : ChatMessage :=
  {| role := user; content := Text (str (trim (input st))) |}.

Definition submitted (st : State) : State :=
  setLoading true
    (setMessages (λ prev, prev ++ [ user_message st ]) (setInput "" st)).

(** What the reachable logs have in common, next to the pointer. *)
Definition pointer_invariant (st : State) : Prop :=
  log_ok (messages st) ∧ pointer_names_most_recent_widget st.

(** The callback only ever writes the pointer. *)
Definition same_but_pointer (st st' : State) : Prop :=
  messages st' = messages st ∧ input st' = input st ∧
  loading st' = loading st ∧ sessionId st' = sessionId st.

End Chat.

Import Chat.

(* ===================================================================== *)
(** * The example application's registry  (widgets/register.ts)            *)
(* ===================================================================== *)

Module Example.

Definition NewCalendar : WidgetComponent :=
  {| widgetName := "Calendar";
     description := "Visualize your calendar and add appointments";
     visualization := both; initWidget := true; getWidgetContext := true |}.

Definition QRScannerWidget : WidgetComponent :=
  {| widgetName := "QR Scanner";
     description := "Scan a product by QR code";
     visualization := small; initWidget := false; getWidgetContext := true |}.

Definition ProductStockWidget : WidgetComponent :=
  {| widgetName := "Stock Visualizer";
     description :=
       "Visualize the availability of a given product into the warehouse";
     visualization := both; initWidget := true; getWidgetContext := true |}.

Definition ImageCarouselWidget : WidgetComponent :=
  {| widgetName := "Image Carousel";
     description := "A carousel widget to display a list of images.";
     visualization := both; initWidget := true; getWidgetContext := true |}.

Definition widgets : registry_t :=
  <["wip://calendar" := NewCalendar]>
    (<["wip://qr-code-scanner" := QRScannerWidget]>
       (<["wip://stock-level-inspector" := ProductStockWidget]>
          (<["wip://image-carousel" := ImageCarouselWidget]> ∅))).

(** The registry once [register.ts] has run. *)
Definition registry : registry_t := registerWidgets widgets registry0.

(** A parameter list that names [x] twice, and the same pairs in the
    other order. *)
Definition x_is (v : string) : WParams := {| name := "x"; value := str v |}.
Definition x12 : list WParams := [ x_is "1"; x_is "2" ].
Definition x21 : list WParams := [ x_is "2"; x_is "1" ].

(** A parameter list with the distinct names [x], [y] and [z], and the
    same pairs in another order. *)
Definition y_is (v : string) : WParams := {| name := "y"; value := str v |}.
Definition z_absent : WParams := {| name := "z"; value := None |}.
Definition xyz : list WParams := [ x_is "1"; y_is "2"; z_absent ].
Definition zxy : list WParams := [ z_absent; x_is "1"; y_is "2" ].

(** Replies of the chat endpoint.  [reply_text uri text] is the text
    [{"uri": "<uri>", "parameters": [], "text": "<text>"}] and
    [reply_json uri text] the value [JSON.parse] decodes it to (for [uri]
    and [text] free of characters that JSON escapes). *)
Definition dq : string := String (Ascii.ascii_of_nat 34) "".
Definition quoted (s : string) : string := dq +:+ s +:+ dq.

Definition reply_text (uri text : string) : string :=
  "{" +:+ quoted "uri" +:+ ": " +:+ quoted uri +:+ ", " +:+
  quoted "parameters" +:+ ": [], " +:+
  quoted "text" +:+ ": " +:+ quoted text +:+ "}".

Definition reply_json (uri text : string) : json :=
  JObject [ ("uri", JString uri); ("parameters", JArray []);
            ("text", JString text) ].

Definition assistant_entry (content : string) (decoded : parsed) : ReplyEntry :=
  {| msg_role := "assistant"; msg_tool := None; msg_result := None;
     msg_content := Some content;
     result_json := SyntaxError; content_json := decoded |}.

Definition widget_reply (uri text : string) : ReplyEntry :=
  assistant_entry (reply_text uri text) (Parsed (reply_json uri text)).

(** A turn whose chat call answers with [data]; the open widget, if any,
    exports [context]. *)
Definition answering (context : completion WidgetContext)
    (data : list ReplyEntry) : World :=
  {| exported_context := context; injection_response := Normal ();
     chat_response := Body (DataArray data) |}.

(** The chat page after the user typed [hi]. *)
Definition typed_hi : State := setInput "hi" initial.

(** The chat page with the calendar open and [hi] typed. *)
Definition calendar_open : State :=
  setInput "hi" (handleAddWidget registry "wip://calendar" initial).

Definition tool_entry (toolName result : string) : ReplyEntry :=
  {| msg_role := "tool"; msg_tool := Some toolName; msg_result := Some result;
     msg_content := None;
     result_json := SyntaxError; content_json := SyntaxError |}.

(** A session: the calendar is opened from the picker, a turn opens the
    stock inspector, the picker is asked for a widget nobody registered,
    and then the widgets are removed one by one. *)
Definition session : list Op :=
  [ AddWidget "wip://calendar";
    Reply "how many are left?"
      (answering (Normal CtxUndefined)
         [ tool_entry "stock" "12 left";
           widget_reply "wip://stock-level-inspector" "ok" ]);
    AddWidget "wip://nobody";
    RemoveWidget; RemoveWidget; RemoveWidget ].

(** A turn during which the calendar exports a context and the network
    is down for the injection endpoint only. *)
Definition network_down : World :=
  {| exported_context := Normal (CtxString "2 appointments");
     injection_response := Throws;
     chat_response := Body (DataArray [ widget_reply "" "hello" ]) |}.

End Example.

(* ===================================================================== *)
(** * The rest of the chat page  (home.tsx)                                *)
(* ===================================================================== *)

Module Page.

(** ** Session start (the first effect of [Home]) *)

Definition setSessionId (id : string) (st : State) : State :=
  {| messages := messages st; input := input st; loading := loading st;
     sessionId := id; openWidgetUri := openWidgetUri st |}.

(** How [fetch(baseUrl + '/start-session')] and [res.json()] end. *)
Inductive StartResponse : Type :=
  | StartRejects                  (* network error *)
  | StartNotOk                    (* !res.ok *)
  | StartBodyNotJson              (* res.json() rejects *)
  | StartBody (data : json).

(** [data && typeof data.session_id === 'string'
          && data.session_id.trim().length > 0].  [data] is truthy where
    [session_id] is read, so the read does not throw; only an object can
    answer it with a string of its own (no prototype defines the name). *)
Definition session_id_of (data : json) : option string :=
  if truthy data then
    match get_prop data "session_id" with
    | Normal (Some (JString id)) =>
        if String.eqb (trim id) "" then None else Some id
    | _ => None
    end
  else None.

(** The asynchronous body of the effect, with its [try]/[catch]. *)
Definition startSession (response : StartResponse) (st : State) : State :=
  match response with
  | StartBody data =>
      match session_id_of data with
      | Some id => setSessionId id st
      | None => st
      end
  | StartRejects | StartNotOk | StartBodyNotJson => st   (* keep default *)
  end.

(** ** Shrink and full-screen controls *)

(** [fullscreenWidgets : Record<number, boolean>], keyed by the position
    of the message. *)
Abbreviation Fullscreen := (gmap nat bool).

(** [const isFullscreen = fullscreenWidgets[idx]], as a condition. *)
Definition isFullscreen (fullscreenWidgets : Fullscreen) (idx : nat) : bool :=
  default false (fullscreenWidgets !! idx).

(** The yellow button: [setFullscreenWidgets(prev => ({...prev, [idx]: false}))]. *)
Definition shrink (idx : nat) (prev : Fullscreen) : Fullscreen :=
  <[idx := false]> prev.

(** The green button:
    [setFullscreenWidgets(prev => ({...prev, [idx]: !prev[idx]}))]. *)
Definition toggleFullscreen (idx : nat) (prev : Fullscreen) : Fullscreen :=
  <[idx := negb (isFullscreen prev idx)]> prev.

(** [showShrink] and [showFull] (the two computations are the same) for a
    widget message whose element carries the string [uri]:
    [const widget = uri ? getWidget(uri) : null;
     show = widget?.visualization === "both"].  A member inherited from
    [Object.prototype] has no [visualization]. *)
Definition showControls (registry : registry_t) (uri : string) : bool :=
  if String.eqb uri "" then false
  else
    match getWidget registry uri with
    | Some (Registered w) =>
        match visualization w with
        | both => true
        | small | indipendent => false
        end
    | Some (Inherited _) | None => false
    end.

(** What [messages.map((msg, idx) => ...)] pairs every message with:
    [const isFullscreen = fullscreenWidgets[idx]]. *)
Definition rendered (fullscreenWidgets : Fullscreen)
    (log : list ChatMessage) : list (ChatMessage * bool) :=
  imap (λ idx msg, (msg, isFullscreen fullscreenWidgets idx)) log.

End Page.

Import Page.

(* ===================================================================== *)
(** * The widget picker  (widgets/WidgetMenu.tsx)                          *)
(* ===================================================================== *)

Module Menu.

(** What is shown left of an entry: what the widget's [getIcon] returned,
    or the neutral grid glyph. *)
Inductive IconElem : Type :=
  | WidgetIcon (icon : string)
  | Placeholder.

(** The static member [getIcon] of the widgets: [None] when a widget does
    not define it as a function, otherwise what calling it does. *)
Abbreviation icons_t := (WidgetComponent → option (completion string)).

Record MenuEntry : Type := {
  entry_uri : string;             (* the button's key, handed to onSelectWidget *)
  entry_name : string;
  entry_description : string;
  entry_icon : IconElem;
}.

(** [x || fallback] on strings. *)
Definition or_else (x fallback : string) : string :=
  if String.eqb x "" then fallback else x.

(** The callback of [Object.keys(widgets).map]: [None] is [return null]
    (nothing is listed).  A member inherited from [Object.prototype] has
    no [widgetName], [description] or [getIcon]. *)
Definition menu_entry (registry : registry_t) (getIcon : icons_t)
    (uri : string) : option MenuEntry :=
  match getWidget registry uri with
  | None => None                            (* if (!widgetComp) return null; *)
  | Some (Registered w) =>
      Some {| entry_uri := uri;
              entry_name := or_else (widgetName w) uri;
              entry_description := or_else (description w) "";
              entry_icon :=
                match getIcon w with
                | Some (Normal icon) => WidgetIcon icon
                | Some Throws => Placeholder               (* catch (e) *)
                | None => Placeholder       (* typeof getIcon !== "function" *)
                end |}
  | Some (Inherited _) =>
      Some {| entry_uri := uri; entry_name := uri;
              entry_description := ""; entry_icon := Placeholder |}
  end.

(** The entries of the open menu, for [keys = Object.keys(widgets)]. *)
Definition menu (registry : registry_t) (getIcon : icons_t)
    (keys : list string) : list MenuEntry :=
  omap (menu_entry registry getIcon) keys.

(** [handleSelect(uri)]: [onSelectWidget] is [handleAddWidget] on the chat
    page; closing the menu is local to the picker. *)
Definition handleSelect (registry : registry_t) (entry : MenuEntry)
    (st : State) : State :=
  handleAddWidget registry (entry_uri entry) st.

End Menu.

Import Menu.

(* ===================================================================== *)
(** * What the example widgets export  (widgets/components)                *)
(* ===================================================================== *)

Module Widgets.

(** [QRScannerWidget.getWidgetContext], over the module-level
    [widgetContext.data : string | null]. *)
Definition QRScanner_getWidgetContext (data : option string) : WidgetContext :=
  if truthy_str data then
    CtxString
      ("The user used the qr scanner widget and successfully scanned a qr code that contains the identifier of an sku. If the user request more info or actions on the scanned product here is the sku identifier:   "
       +:+ from_opt data)
  else CtxUndefined.

(** [ProductStockWidget.getWidgetContext], over
    [productStockWidgetContext.sku : string | null]. *)
Definition ProductStock_getWidgetContext (sku : option string) : WidgetContext :=
  if truthy_str sku then
    CtxString ("The user is visualizing the sku" +:+ from_opt sku)
  else CtxUndefined.

(** [ImageCarouselWidget.getWidgetContext], over
    [widgetContext : { id: string | null; url: string | null }]. *)
Definition ImageCarousel_getWidgetContext (id url : option string)
  : WidgetContext :=
  if truthy_str id && truthy_str url then
    CtxString ("The user is visualizing the sku:  " +:+ from_opt id)
  else CtxUndefined.

End Widgets.

(* ===================================================================== *)
(** * Vocabulary for the properties below                                  *)
(* ===================================================================== *)

Module Observations.

(** The string holds white space only (the empty string included). *)
Fixpoint all_white_space (s : string) : bool :=
  match s with
  | EmptyString => true
  | String c rest => is_white_space c && all_white_space rest
  end.

(** The network calls among the effects of a turn. *)
Definition is_request (e : Effect) : bool :=
  match e with
  | PostContextInjection _ _ | PostChat _ _ => true
  | ConsoleWarn _ | ConsoleError _ => false
  end.

(** The entry takes the tool branch of the callback. *)
Definition is_tool_entry (msg : ReplyEntry) : bool :=
  String.eqb (msg_role msg) "tool" && truthy_str (msg_result msg).

(** The values the widget handed to [setParams], in order. *)
Definition set_values (events : list Event) : list (option ParamObj) :=
  omap (λ ev, match ev with
              | SetParams v => Some v
              | Rerender _ => None
              end) events.

(** The identifier a mounted renderer was last asked to show. *)
Definition current_uri (props : Props) (events : list Event) : string :=
  default (uri props) (last (rerendered events)).

(** The messages of a log that are not widget messages. *)
Definition other_messages (log : list ChatMessage) : list ChatMessage :=
  List.filter (λ m, negb (is_widget m)) log.

(** The chat call of the turn did not produce a reply body. *)
Definition chat_failed (world : World) : bool :=
  match chat_response world with
  | FetchRejects | NotOk | BodyNotJson => true
  | Body _ | ArrayWithNull _ => false
  end.

(** An assistant entry that opens no widget: its content does not decode,
    or the decoded value has no truthy [uri]. *)
Definition text_only (msg : ReplyEntry) : bool :=
  is_assistant_entry msg &&
  match content_json msg with
  | SyntaxError => true
  | Parsed v => negb (truthy_val (decoded_field v "uri"))
  end.

(** The entry keeps to the backend contract where it names a widget: if
    its content decodes to a value with a truthy [uri], that [uri] is a
    string. *)
Definition uri_well_typed (msg : ReplyEntry) : bool :=
  match content_json msg with
  | SyntaxError => true
  | Parsed v =>
      match decoded_field v "uri" with
      | Some (JString _) => true
      | uri => negb (truthy_val uri)
      end
  end.

(** Any operation on the page: picker, removal, or a turn, whatever the
    network and the widgets do, as long as a reply that is an array keeps
    to the contract: its elements are objects (none is [null]) and name
    widgets by strings. *)
Definition op_well_typed (op : Op) : bool :=
  match op with
  | Reply _ world =>
      match chat_response world with
      | Body (DataArray data) => forallb uri_well_typed data
      | ArrayWithNull _ => false
      | FetchRejects | NotOk | BodyNotJson | Body DataOther => true
      end
  | AddWidget _ | RemoveWidget => true
  end.

(** The pointer is [null] or names the most recent widget message. *)
Definition pointer_null_or_most_recent (st : State) : Prop :=
  openWidgetUri st = None ∨ pointer_names_most_recent_widget st.

(** What the logs and pointers of such sessions have in common. *)
Definition weak_invariant (st : State) : Prop :=
  log_ok (messages st) ∧ pointer_null_or_most_recent st.

(** The entries have no own key [__proto__], so [Object.assign] stores
    each of them. *)
Definition assignable (entries : registry_t) : Prop :=
  entries !! "__proto__" = None.

End Observations.

Import Observations.

(* ===================================================================== *)
(** * The model on small inputs                                            *)
(* ===================================================================== *)

Example truthy_numbers :
  truthy (JNumber 0) = false ∧ truthy (JNumber (-0)) = false ∧
  truthy (JNumber PrimFloat.nan) = false ∧ truthy (JNumber 1.5) = true ∧
  truthy (JString "") = false ∧ truthy (JArray []) = true ∧
  truthy (JObject []) = true.
Proof. by repeat split. Qed.

Example trim_example : trim "  hello  there	 " = "hello  there".
Proof. reflexivity. Qed.

Example getWidget_examples :
  getWidget Example.registry "wip://calendar"
    = Some (Registered Example.NewCalendar) ∧
  getWidget Example.registry "wip://nobody" = None ∧
  getWidget Example.registry "valueOf" = Some (Inherited "valueOf").
Proof. by repeat split. Qed.

(** Removing takes out the most recent widget message, wherever it is in
    the log, and moves the pointer back. *)
Example handleRemoveWidget_example :
  let st :=
    fst (sendMessage
           (Example.answering (Normal CtxUndefined)
              [ Example.widget_reply "wip://qr-code-scanner" "scan it" ])
           Example.calendar_open) in
  map role (messages st) = [ widget; user; widget; assistant ] ∧
  map role (messages (handleRemoveWidget st)) = [ widget; user; assistant ] ∧
  openWidgetUri (handleRemoveWidget st) = str "wip://calendar" ∧
  handleRemoveWidget (handleRemoveWidget (handleRemoveWidget st)) =
    handleRemoveWidget (handleRemoveWidget st).
Proof. by repeat split. Qed.

(** A tool entry is shown as it is when its result is not JSON. *)
Example tool_entry_example :
  reply_callback (Example.tool_entry "stock" "12 left") initial =
  (initial,
   [ {| role := tool;
        content := ToolOutput (Some "stock") (Verbatim "12 left") |} ]).
Proof. reflexivity. Qed.

(* ===================================================================== *)
(** * Parameter normalization                                              *)
(* ===================================================================== *)

Section Normalization.

Implicit Types (es : list (string * jsval)) (ps : list WParams).

Lemma fromEntries_nil : fromEntries [] = ∅.
Proof. reflexivity. Qed.

Lemma fromEntries_snoc es k v :
  fromEntries (es ++ [(k, v)]) = <[k := v]> (fromEntries es).
Proof. unfold fromEntries. by rewrite foldl_snoc. Qed.

(** Reading a key: the entry of the last pair under that key. *)
Lemma lookup_fromEntries_snoc es k v k' :
  fromEntries (es ++ [(k, v)]) !! k' =
  if decide (k = k') then Some v else fromEntries es !! k'.
Proof. by rewrite fromEntries_snoc, lookup_insert. Qed.

Lemma lookup_fromEntries_app_notin es1 es2 k :
  k ∉ es2.*1 → fromEntries (es1 ++ es2) !! k = fromEntries es1 !! k.
Proof.
  induction es2 as [| [k' v'] es2 IH] using rev_ind; intros Hk.
  - by rewrite app_nil_r.
  - rewrite fmap_app, not_elem_of_app in Hk. destruct Hk as [Hk Hk'].
    rewrite app_assoc, lookup_fromEntries_snoc.
    case_decide as Heq; [| by apply IH].
    subst. exfalso. apply Hk'. simpl. by constructor.
Qed.

Lemma lookup_fromEntries_last es1 k v es2 :
  k ∉ es2.*1 → fromEntries (es1 ++ (k, v) :: es2) !! k = Some v.
Proof.
  intros Hk. rewrite (cons_middle (k, v)), app_assoc.
  rewrite lookup_fromEntries_app_notin by done.
  rewrite lookup_fromEntries_snoc. by case_decide.
Qed.

Lemma dom_fromEntries es : dom (fromEntries es) = list_to_set es.*1.
Proof.
  induction es as [| [k v] es IH] using rev_ind.
  - by rewrite fromEntries_nil, dom_empty_L.
  - rewrite fromEntries_snoc, dom_insert_L, IH, fmap_app, list_to_set_app_L.
    simpl. rewrite (right_id_L ∅ (∪)). apply (comm_L (∪)).
Qed.

Lemma size_fromEntries es :
  size (fromEntries es) = length (remove_dups es.*1).
Proof.
  rewrite <- size_dom, dom_fromEntries.
  rewrite <- (size_list_to_set (C := gset string) (remove_dups es.*1))
    by apply NoDup_remove_dups.
  f_equal. apply set_eq. intros k.
  by rewrite !elem_of_list_to_set, elem_of_remove_dups.
Qed.

(** With pairwise distinct keys nothing is replaced: a pair is in the
    object exactly when it is in the list. *)
Lemma lookup_fromEntries_NoDup es k v :
  NoDup es.*1 → fromEntries es !! k = Some v ↔ (k, v) ∈ es.
Proof.
  induction es as [| [k' v'] es IH] using rev_ind; intros Hnd.
  - rewrite fromEntries_nil, lookup_empty. split; [done |]. by intros ?%elem_of_nil.
  - rewrite fmap_app in Hnd. apply NoDup_app in Hnd as (Hnd & Hfresh & _).
    rewrite lookup_fromEntries_snoc, elem_of_app, list_elem_of_singleton.
    case_decide as Heq.
    + subst k'. split.
      * intros [= ->]. by right.
      * intros [Hin | [= ->]]; [| done].
        exfalso. apply (Hfresh k).
        -- apply list_elem_of_fmap. by exists (k, v).
        -- simpl. by constructor.
    + rewrite IH by done. split; [by left |].
      intros [? | [= ? ?]]; [done | congruence].
Qed.

Lemma entries_fmap_fst ps :
  (map (λ p, (name p, value p)) ps).*1 = map name ps.
Proof. induction ps; simpl; [done | by f_equal]. Qed.

End Normalization.

(** ** C3: one entry per distinct name, the last occurrence wins *)

(** C3.  For every parameter list, duplicates included, the renderer's
    normalization ([paramObj]) yields an object whose keys are exactly the
    names of the list, with one entry per distinct name, and the value kept
    under a name is the value of its last occurrence in the list. *)
Theorem paramObj_one_entry_per_name_last_wins (ps : list WParams) :
  ∃ obj : ParamObj,
    paramObj (Some ps) = Some obj ∧
    (∀ k, is_Some (obj !! k) ↔ k ∈ map name ps) ∧
    size obj = length (remove_dups (map name ps)) ∧
    (∀ before p after,
        ps = before ++ p :: after → name p ∉ map name after →
        obj !! name p = Some (value p)).
Proof.
  eexists. split; [reflexivity |]. split; [| split].
  - intros k. rewrite <- elem_of_dom, dom_fromEntries, entries_fmap_fst.
    apply elem_of_list_to_set.
  - by rewrite size_fromEntries, entries_fmap_fst.
  - intros before p after -> Hlast.
    rewrite map_app. simpl.
    apply lookup_fromEntries_last. by rewrite entries_fmap_fst.
Qed.

(** ** C8: lossless and order-independent, for distinct names *)

(** C8, as stated, fails: with a name given twice, the first pair is lost
    and exchanging the two pairs changes the object. *)
Lemma paramObj_duplicates_order_dependent :
  Example.x12 ≡ₚ Example.x21 ∧
  paramObj (Some Example.x12) ≠ paramObj (Some Example.x21) ∧
  (∃ obj, paramObj (Some Example.x12) = Some obj ∧
          Example.x_is "1" ∈ Example.x12 ∧
          obj !! "x" ≠ Some (str "1")).
Proof.
  split; [apply Permutation_swap |]. split.
  - intros Heq. apply (f_equal (λ o, o ≫= (.!! "x"))) in Heq.
    vm_compute in Heq. discriminate.
  - eexists. split; [reflexivity |]. split; [by constructor |].
    vm_compute. discriminate.
Qed.

(** C8, amended.  For every parameter list with pairwise distinct names,
    normalization is lossless (every pair of the list can be read back from
    the object, and the object holds nothing else) and order-independent
    (every permutation of the list yields the same object). *)
Theorem paramObj_distinct_names_lossless_order_independent
    (ps ps' : list WParams) (obj : ParamObj) :
  NoDup (map name ps) →
  ps ≡ₚ ps' →
  paramObj (Some ps) = Some obj →
  paramObj (Some ps') = Some obj ∧
  (∀ p, p ∈ ps → obj !! name p = Some (value p)) ∧
  (∀ k v, obj !! k = Some v → ∃ p, p ∈ ps ∧ name p = k ∧ value p = v).
Proof.
  intros Hnd Hperm [= <-].
  set (entries := λ qs : list WParams, map (λ p, (name p, value p)) qs).
  assert (Hnd1 : NoDup (entries ps).*1) by by rewrite entries_fmap_fst.
  assert (Hnd2 : NoDup (entries ps').*1).
  { rewrite entries_fmap_fst, <- Hperm. exact Hnd. }
  split; [| split].
  - simpl. f_equal. apply map_eq. intros k.
    apply option_eq. intros v.
    rewrite !lookup_fromEntries_NoDup by done.
    unfold entries. by rewrite Hperm.
  - intros p Hp. apply lookup_fromEntries_NoDup; [done |].
    apply (list_elem_of_fmap_2 (λ p, (name p, value p))), Hp.
  - intros k v Hkv. apply lookup_fromEntries_NoDup in Hkv; [| done].
    apply list_elem_of_fmap in Hkv as (p & [= -> ->] & Hp). eauto.
Qed.

(** Three distinct names, one of them without a value, in two orders: the
    same object, from which every pair is read back and which holds
    nothing under a fourth name. *)
Lemma paramObj_distinct_names_witness :
  paramObj (Some Example.zxy) = paramObj (Some Example.xyz) ∧
  (paramObj (Some Example.xyz) ≫= (.!! "x")) = Some (str "1") ∧
  (paramObj (Some Example.xyz) ≫= (.!! "y")) = Some (str "2") ∧
  (paramObj (Some Example.xyz) ≫= (.!! "z")) = Some None ∧
  (paramObj (Some Example.xyz) ≫= (.!! "w")) = None.
Proof.
  destruct (paramObj_distinct_names_lossless_order_independent
              Example.xyz Example.zxy
              (fromEntries (map (λ p, (name p, value p)) Example.xyz)))
    as (Horder & Hread & Honly).
  - simpl. compute_done.
  - unfold Example.xyz, Example.zxy.
    apply Permutation_sym, (Permutation_cons_append [_; _] Example.z_absent).
  - reflexivity.
  - split; [exact Horder |].
    split; [apply (Hread (Example.x_is "1")); by repeat constructor |].
    split; [apply (Hread (Example.y_is "2")); by repeat constructor |].
    split; [apply (Hread Example.z_absent); by repeat constructor |].
    simpl. destruct (fromEntries _ !! "w") as [v |] eqn:Hw; [| done].
    destruct (Honly "w" v Hw) as (p & Hp & Hname & _).
    exfalso. repeat (apply elem_of_cons in Hp as [-> | Hp]; [done |]).
    by apply elem_of_nil in Hp.
Defined.

(* ===================================================================== *)
(** * The renderer's lifecycle                                             *)
(* ===================================================================== *)

Section Lifecycle.

Variable registry : registry_t.

Lemma mount_deps_current props : deps_current (mount registry props).
Proof. reflexivity. Qed.

Lemma step_deps_current inst ev : deps_current (step registry inst ev).
Proof. destruct ev; reflexivity. Qed.

Lemma run_deps_current events inst :
  deps_current inst → deps_current (run registry inst events).
Proof.
  revert inst. induction events as [| ev events IH]; intros inst Hinv.
  - exact Hinv.
  - apply IH, step_deps_current.
Qed.

(** A widget calling [setParams] never leads to an [initWidget] call. *)
Lemma step_SetParams_init_log inst newParams :
  deps_current inst →
  init_log (step registry inst (SetParams newParams)) = init_log inst.
Proof.
  unfold deps_current. intros Hinv. simpl. rewrite Hinv.
  rewrite String.eqb_refl. simpl. apply app_nil_r.
Qed.

(** A render by the parent calls [initWidget] exactly when the
    identifier differs from the previous one and the hook exists. *)
Lemma step_Rerender_init_log inst props :
  deps_current inst →
  map init_uri (init_log (step registry inst (Rerender props))) =
  map init_uri (init_log inst) ++
  List.filter (λ u, has_initWidget (getWidget registry u))
    (changes_from (uri (cur_props inst)) [uri props]).
Proof.
  unfold deps_current. intros Hinv. simpl. rewrite Hinv, map_app.
  f_equal. destruct (String.eqb (uri props) (uri (cur_props inst))); simpl.
  - reflexivity.
  - destruct (has_initWidget (getWidget registry (uri props))); reflexivity.
Qed.

Lemma run_init_log events inst :
  deps_current inst →
  map init_uri (init_log (run registry inst events)) =
  map init_uri (init_log inst) ++
  List.filter (λ u, has_initWidget (getWidget registry u))
    (changes_from (uri (cur_props inst)) (rerendered events)).
Proof.
  revert inst. induction events as [| ev events IH]; intros inst Hinv.
  - simpl. by rewrite app_nil_r.
  - change (run registry inst (ev :: events))
      with (run registry (step registry inst ev) events).
    rewrite IH by apply step_deps_current.
    destruct ev as [props | newParams].
    + rewrite step_Rerender_init_log by done.
      rewrite <- app_assoc. f_equal.
      change (rerendered (Rerender props :: events))
        with (uri props :: rerendered events).
      simpl. destruct (String.eqb (uri props) (uri (cur_props inst))); simpl.
      * reflexivity.
      * destruct (has_initWidget (getWidget registry (uri props)));
          reflexivity.
    + rewrite step_SetParams_init_log by done. reflexivity.
Qed.

End Lifecycle.

(** ** C4: [initWidget] runs once per identifier change *)

(** C4.  For a mounted renderer and every sequence of renders by its
    parent and of [setParams] calls by the widget, [initWidget] is invoked
    exactly once for every identifier change of the sequence of identifiers
    shown (the identifier it is mounted with included) whose widget defines
    the hook, in that order; and a [setParams] call, after any such
    history, adds no invocation. *)
Theorem initWidget_once_per_identifier_change
    (registry : registry_t) (props : Props) (events : list Event) :
  map init_uri (init_log (run registry (mount registry props) events)) =
    List.filter (λ u, has_initWidget (getWidget registry u))
      (changes (shown_uris props events))
  ∧ ∀ newParams,
      init_log (run registry (mount registry props)
                  (events ++ [SetParams newParams])) =
      init_log (run registry (mount registry props) events).
Proof.
  split.
  - rewrite run_init_log by apply mount_deps_current.
    unfold shown_uris, changes. simpl.
    destruct (has_initWidget (getWidget registry (uri props))); reflexivity.
  - intros newParams. unfold run. rewrite foldl_snoc.
    apply step_SetParams_init_log, run_deps_current, mount_deps_current.
Qed.

(** The scenario of the specification: rendering [wip://calendar] with
    [[{name: "x", value: ...}]] hands the widget [{x: ...}], and [initWidget]
    fires once, also after two parameter replacements and a second render
    under the same identifier. *)
Example render_calendar_scenario :
  let props := {| uri := "wip://calendar"; parameters := Some [Example.x_is "1"] |} in
  let inst := mount Example.registry props in
  shown inst = WidgetInstance (Registered Example.NewCalendar)
                 (Some {[ "x" := str "1" ]}) ∧
  init_log inst = [ {| init_uri := "wip://calendar";
                       init_params := Some {[ "x" := str "1" ]} |} ] ∧
  length (init_log (run Example.registry inst
                      [ SetParams None; Rerender props;
                        SetParams (Some ∅) ])) = 1.
Proof. vm_compute. auto. Qed.

(** ** C9: a renderer without a parameter list *)

(** C9, as stated, fails: mounted without a parameter list, the renderer
    hands [undefined], not an empty object, to [initWidget] and to the
    widget instance. *)
Lemma mount_without_parameters_not_empty_object :
  let inst := mount Example.registry
                {| uri := "wip://calendar"; parameters := None |} in
  shown inst ≠ WidgetInstance (Registered Example.NewCalendar) (Some ∅) ∧
  init_log inst ≠ [ {| init_uri := "wip://calendar"; init_params := Some ∅ |} ].
Proof. split; vm_compute; discriminate. Qed.

(** C9, amended.  A renderer mounted without a parameter list passes
    [undefined] to the widget, both as the parameters argument of the
    [initWidget] call it makes (when the hook is defined) and as the
    [parameters] prop of the widget instance it renders. *)
Theorem mount_without_parameters_passes_undefined
    (registry : registry_t) (id : string) (Widget : resolved) :
  getWidget registry id = Some Widget →
  let inst := mount registry {| uri := id; parameters := None |} in
  shown inst = WidgetInstance Widget None ∧
  init_log inst =
    if has_initWidget (Some Widget)
    then [ {| init_uri := id; init_params := None |} ]
    else [].
Proof.
  intros Hget. unfold mount, WidgetRenderer. simpl. rewrite Hget. by split.
Qed.

(** The calendar, mounted from the picker, is handed [undefined]. *)
Lemma mount_without_parameters_witness :
  shown (mount Example.registry
           {| uri := "wip://calendar"; parameters := None |}) =
    WidgetInstance (Registered Example.NewCalendar) None.
Proof.
  exact (proj1 (mount_without_parameters_passes_undefined
                  Example.registry "wip://calendar"
                  (Registered Example.NewCalendar) eq_refl)).
Defined.

(* ===================================================================== *)
(** * The open-widget pointer                                              *)
(* ===================================================================== *)

Section Searching.

Context {A : Type} (p : A → bool).

Lemma findIndex_cons x xs :
  findIndex p (x :: xs) = if p x then Some 0 else S <$> findIndex p xs.
Proof.
  unfold findIndex. simpl. case_decide as Hx.
  - by rewrite Hx.
  - destruct (p x); [done |].
    by destruct (list_find (λ x, p x = true) xs) as [[i y] |].
Qed.

Lemma find_cons x xs : find p (x :: xs) = if p x then Some x else find p xs.
Proof.
  unfold find. simpl. case_decide as Hx.
  - by rewrite Hx.
  - destruct (p x); [done |].
    by destruct (list_find (λ x, p x = true) xs) as [[i y] |].
Qed.

(** Searching the reversed list finds the last match. *)
Lemma find_reverse xs : find p (reverse xs) = last (List.filter p xs).
Proof.
  induction xs as [| x xs IH] using rev_ind; [done |].
  rewrite reverse_snoc, find_cons, List.filter_app. simpl.
  destruct (p x).
  - by rewrite last_snoc.
  - by rewrite app_nil_r.
Qed.

(** Either nothing matches, or the list splits at its last match and the
    reversed search answers with the number of elements after it. *)
Lemma findIndex_reverse xs :
  (findIndex p (reverse xs) = None ∧ List.filter p xs = []) ∨
  (∃ before x after,
      xs = before ++ x :: after ∧ p x = true ∧ List.filter p after = [] ∧
      findIndex p (reverse xs) = Some (length after)).
Proof.
  induction xs as [| y xs IH] using rev_ind; [by left |].
  rewrite reverse_snoc, findIndex_cons, List.filter_app. simpl.
  destruct (p y) eqn:Hy.
  - right. exists xs, y, []. by rewrite Hy.
  - destruct IH as [[-> ->] | (before & x & after & -> & Hx & Hafter & ->)].
    + by left.
    + right. exists before, x, (after ++ [y]).
      rewrite <- app_assoc, List.filter_app, Hafter. simpl.
      rewrite Hy, length_app. simpl.
      repeat split; [done | f_equal; lia].
Qed.

End Searching.

Section Pointer.

Implicit Types (st : State) (log : list ChatMessage) (m : ChatMessage).

Lemma widget_messages_app log1 log2 :
  widget_messages (log1 ++ log2) = widget_messages log1 ++ widget_messages log2.
Proof. apply List.filter_app. Qed.

Lemma most_recent_widget_snoc_widget log uri parameters :
  most_recent_widget
    (log ++ [ {| role := widget;
                 content := WidgetRendererElement uri parameters |} ]) = uri.
Proof.
  unfold most_recent_widget. rewrite widget_messages_app. simpl.
  by rewrite last_snoc.
Qed.

Lemma most_recent_widget_app_none log1 log2 :
  widget_messages log2 = [] →
  most_recent_widget (log1 ++ log2) = most_recent_widget log1.
Proof.
  intros Hnone. unfold most_recent_widget.
  by rewrite widget_messages_app, Hnone, app_nil_r.
Qed.

Lemma most_recent_widget_app_some log1 log2 :
  widget_messages log2 ≠ [] →
  most_recent_widget (log1 ++ log2) = most_recent_widget log2.
Proof.
  intros Hsome. unfold most_recent_widget. rewrite widget_messages_app.
  destruct (widget_messages log2) as [| m ms] using rev_ind; [done |].
  by rewrite app_assoc, !last_snoc.
Qed.

Lemma log_ok_app log1 log2 : log_ok (log1 ++ log2) ↔ log_ok log1 ∧ log_ok log2.
Proof. apply Forall_app. Qed.

(** In a well-formed log the most recent widget's identifier is a string,
    so the [typeof uri === "string"] test of [handleRemoveWidget] keeps
    it. *)
Lemma last_widget_pointer log :
  log_ok log →
  match last (widget_messages log) with
  | Some prevWidget =>
      if isValidElement (content prevWidget)
      then string_or_null (props_uri (content prevWidget))
      else None
  | None => None
  end = most_recent_widget log.
Proof.
  intros Hok. unfold most_recent_widget.
  destruct (last (widget_messages log)) as [m |] eqn:Hlast; [| done].
  assert (Hm : m ∈ widget_messages log) by by apply last_Some_elem_of.
  apply list_elem_of_In, List.filter_In in Hm as [Hin Hw].
  apply list_elem_of_In in Hin.
  unfold log_ok in Hok. rewrite Forall_forall in Hok. specialize (Hok m Hin).
  unfold is_widget in Hw. apply bool_decide_eq_true in Hw.
  unfold widget_message_ok in Hok. rewrite Hw in Hok. simpl.
  destruct (content m) as [| | [[| | | s | |] |] ?]; done.
Qed.

(** ** The three operations keep the pointer on the most recent widget *)

Lemma initial_invariant : pointer_invariant initial.
Proof. split; [constructor | reflexivity]. Qed.

Lemma handleAddWidget_invariant registry uri st :
  pointer_invariant st → pointer_invariant (handleAddWidget registry uri st).
Proof.
  intros [Hok Hptr]. unfold handleAddWidget.
  destruct (getWidget registry uri); [| by split].
  split; simpl.
  - apply log_ok_app. split; [done |]. by repeat constructor.
  - unfold pointer_names_most_recent_widget. simpl.
    by rewrite most_recent_widget_snoc_widget.
Qed.

Lemma handleRemoveWidget_removes_last st :
  (widget_messages (messages st) = [] ∧ handleRemoveWidget st = st) ∨
  (∃ before w after,
      messages st = before ++ w :: after ∧ is_widget w = true ∧
      widget_messages after = [] ∧
      messages (handleRemoveWidget st) = before ++ after ∧
      openWidgetUri (handleRemoveWidget st) =
        match last (widget_messages (before ++ after)) with
        | Some prevWidget =>
            if isValidElement (content prevWidget)
            then string_or_null (props_uri (content prevWidget))
            else None
        | None => None
        end).
Proof.
  unfold handleRemoveWidget.
  destruct (findIndex_reverse is_widget (messages st))
    as [[-> Hnone] | (before & w & after & Hsplit & Hw & Hafter & ->)].
  - by left.
  - right. exists before, w, after.
    assert (Hidx : length (messages st) - 1 - length after = length before).
    { rewrite Hsplit, length_app. simpl. lia. }
    rewrite Hidx, Hsplit. simpl.
    rewrite take_app_length.
    replace (length before + 1) with (length (before ++ [w]))
      by (rewrite length_app; simpl; lia).
    rewrite (cons_middle w before after), app_assoc, drop_app_length.
    rewrite find_reverse. repeat split; done.
Qed.

Lemma handleRemoveWidget_invariant st :
  pointer_invariant st → pointer_invariant (handleRemoveWidget st).
Proof.
  intros [Hok Hptr].
  destruct (handleRemoveWidget_removes_last st)
    as [[_ ->] | (before & w & after & Hsplit & _ & _ & Hmsgs & Hnew)];
    [by split |].
  assert (Hok' : log_ok (before ++ after)).
  { rewrite Hsplit in Hok. apply log_ok_app in Hok as [Hb Ha].
    apply log_ok_app. split; [done |]. by inversion Ha. }
  split.
  - by rewrite Hmsgs.
  - unfold pointer_names_most_recent_widget.
    rewrite Hnew, Hmsgs. by apply last_widget_pointer.
Qed.

End Pointer.

Section Replies.

Implicit Types (st : State) (log : list ChatMessage) (msg : ReplyEntry).

Lemma same_but_pointer_refl st : same_but_pointer st st.
Proof. by repeat split. Qed.

Lemma same_but_pointer_set u st : same_but_pointer st (setOpenWidgetUri u st).
Proof. by repeat split. Qed.

Lemma same_but_pointer_trans st1 st2 st3 :
  same_but_pointer st1 st2 → same_but_pointer st2 st3 →
  same_but_pointer st1 st3.
Proof.
  intros (? & ? & ? & ?) (? & ? & ? & ?). repeat split; congruence.
Qed.

Lemma reply_callback_same_but_pointer msg st :
  same_but_pointer st (fst (reply_callback msg st)).
Proof.
  unfold reply_callback, assistant_try.
  repeat case_match; simplify_eq; simpl;
    first [ apply same_but_pointer_refl | apply same_but_pointer_set ].
Qed.

Lemma flatMap_same_but_pointer data st :
  same_but_pointer st (fst (flatMap data st)).
Proof.
  revert st. induction data as [| msg data IH]; intros st; simpl.
  - apply same_but_pointer_refl.
  - pose proof (reply_callback_same_but_pointer msg st) as H1.
    destruct (reply_callback msg st) as [st1 here].
    specialize (IH st1). destruct (flatMap data st1) as [st2 there].
    simpl in *. by eapply same_but_pointer_trans.
Qed.

(** An entry that opens a widget contributes the widget message, then at
    most a text message, and leaves the pointer on that widget. *)
Lemma reply_callback_opens msg st :
  opens_widget msg = true →
  ∃ u parameters rest,
    u ≠ "" ∧
    reply_callback msg st =
      (setOpenWidgetUri (str u) st,
       {| role := widget; content := WidgetRendererElement (str u) parameters |}
       :: rest) ∧
    widget_messages rest = [] ∧ log_ok rest.
Proof.
  unfold opens_widget, is_assistant_entry, reply_callback, assistant_try.
  intros Hopens. apply andb_prop in Hopens as [Hassistant Huri].
  rewrite Hassistant.
  apply andb_prop in Hassistant as [Hrole _].
  apply String.eqb_eq in Hrole. rewrite Hrole. simpl.
  destruct (content_json msg) as [| v]; [done |].
  destruct v as [| | | | | fields]; try done. simpl in *.
  destruct (assoc "uri" fields) as [[| | | u | |] |]; try done.
  apply negb_true_iff in Huri. simpl. rewrite Huri. simpl.
  apply String.eqb_neq in Huri.
  destruct (truthy_val (assoc "text" fields)); eexists u, _, _;
    (split; [done |]); (split; [reflexivity |]); split;
    by repeat constructor.
Qed.

(** An entry outside the assistant branch contributes at most a tool
    message and leaves the pointer alone. *)
Lemma reply_callback_other msg st :
  is_assistant_entry msg = false →
  ∃ here, reply_callback msg st = (st, here) ∧
          widget_messages here = [] ∧ log_ok here.
Proof.
  unfold is_assistant_entry, reply_callback. intros ->.
  destruct (String.eqb (msg_role msg) "tool" && truthy_str (msg_result msg));
    eexists; (split; [reflexivity |]); split; by repeat constructor.
Qed.

Lemma flatMap_opening_pointer data st log :
  forallb (λ msg, opens_widget msg || negb (is_assistant_entry msg)) data = true →
  openWidgetUri st = most_recent_widget log →
  log_ok log →
  openWidgetUri (fst (flatMap data st)) =
    most_recent_widget (log ++ snd (flatMap data st)) ∧
  log_ok (log ++ snd (flatMap data st)).
Proof.
  revert st log. induction data as [| msg data IH]; intros st log Hall Hptr Hok.
  - simpl. by rewrite app_nil_r.
  - simpl in Hall. apply andb_prop in Hall as [Hmsg Hall]. simpl.
    assert (Hstep : ∃ st1 here,
               reply_callback msg st = (st1, here) ∧
               openWidgetUri st1 = most_recent_widget (log ++ here) ∧
               log_ok (log ++ here)).
    { apply orb_prop in Hmsg as [Hopens | Hother].
      - destruct (reply_callback_opens msg st Hopens)
          as (u & parameters & rest & _ & -> & Hrest & Hrest_ok).
        eexists _, _. split; [reflexivity |]. split.
        + simpl. rewrite (cons_middle _ log rest), app_assoc.
          rewrite most_recent_widget_app_none by done.
          by rewrite most_recent_widget_snoc_widget.
        + apply log_ok_app. split; [done |].
          apply Forall_cons. by split.
      - apply negb_true_iff in Hother.
        destruct (reply_callback_other msg st Hother)
          as (here & -> & Hhere & Hhere_ok).
        eexists _, _. split; [reflexivity |]. split.
        + by rewrite most_recent_widget_app_none.
        + by apply log_ok_app. }
    destruct Hstep as (st1 & here & -> & Hptr1 & Hok1).
    specialize (IH st1 (log ++ here) Hall Hptr1 Hok1).
    destruct (flatMap data st1) as [st2 there]. simpl in *.
    by rewrite app_assoc.
Qed.

(** A turn that does not get past its guard changes nothing. *)
Lemma sendMessage_blocked world st :
  trim (input st) = "" ∨ loading st = true → sendMessage world st = (st, []).
Proof.
  unfold sendMessage. intros [-> | ->]; [done |]. by rewrite orb_true_r.
Qed.

Lemma sendMessage_invariant world st :
  reply_opens_widgets world = true →
  pointer_invariant st → pointer_invariant (fst (sendMessage world st)).
Proof.
  unfold reply_opens_widgets. intros Hreply [Hok Hptr].
  unfold sendMessage.
  destruct (String.eqb (trim (input st)) "" || loading st); [by split |].
  destruct (chat_response world) as [| | | [data |] | before]; try done.
  set (st1 := setLoading true _).
  set (log1 := messages st ++
                 [ {| role := user; content := Text (str (trim (input st))) |} ]).
  assert (Hptr1 : openWidgetUri st1 = most_recent_widget log1).
  { unfold log1. by rewrite most_recent_widget_app_none. }
  assert (Hok1 : log_ok log1).
  { apply log_ok_app. split; [done |]. by repeat constructor. }
  destruct (flatMap_opening_pointer data st1 log1 Hreply Hptr1 Hok1)
    as [Hptr2 Hok2].
  pose proof (flatMap_same_but_pointer data st1) as (Hmsgs & _).
  destruct (flatMap data st1) as [st2 newMsgs]. simpl in *.
  change (messages st1) with log1 in Hmsgs.
  destruct newMsgs as [| m newMsgs].
  - rewrite app_nil_r in *. unfold pointer_invariant,
      pointer_names_most_recent_widget. simpl. by rewrite Hmsgs.
  - unfold pointer_invariant, pointer_names_most_recent_widget. simpl.
    by rewrite Hmsgs.
Qed.

Lemma apply_op_invariant registry st op :
  op_opens_or_removes op = true →
  pointer_invariant st → pointer_invariant (apply_op registry st op).
Proof.
  destruct op as [uri | | typed world]; simpl; intros Hop Hinv.
  - by apply handleAddWidget_invariant.
  - by apply handleRemoveWidget_invariant.
  - by apply sendMessage_invariant.
Qed.

End Replies.

(** ** C1: the pointer names the most recent remaining widget *)

(** C1.  Starting from the empty chat page, after each operation of any
    sequence of widget openings (through the picker, or through a turn whose
    reply opens widgets) and widget removals, [openWidgetUri] is the
    identifier of the most recent widget message still in the log, and
    [null] when the log holds no widget message. *)
Theorem openWidgetUri_names_most_recent_widget
    (registry : registry_t) (ops : list Op) :
  forallb op_opens_or_removes ops = true →
  Forall pointer_names_most_recent_widget (states registry initial ops).
Proof.
  intros Hops.
  enough (H : ∀ st, pointer_invariant st →
                Forall pointer_names_most_recent_widget (states registry st ops))
    by apply H, initial_invariant.
  induction ops as [| op ops IH]; intros st Hinv; simpl.
  - constructor.
  - simpl in Hops. apply andb_prop in Hops as [Hop Hops].
    pose proof (apply_op_invariant registry st op Hop Hinv) as Hinv'.
    constructor; [apply Hinv' | by apply IH].
Qed.

(** The invariant along the example session. *)
Lemma openWidgetUri_names_most_recent_widget_witness :
  Forall pointer_names_most_recent_widget
    (states Example.registry initial Example.session).
Proof.
  apply openWidgetUri_names_most_recent_widget. reflexivity.
Defined.

(** The pointer along that session. *)
Example session_pointers :
  map openWidgetUri (states Example.registry initial Example.session) =
  [ str "wip://calendar"; str "wip://stock-level-inspector";
    str "wip://stock-level-inspector"; str "wip://calendar"; None; None ].
Proof. reflexivity. Qed.

(* ===================================================================== *)
(** * Applying the reply of a turn                                         *)
(* ===================================================================== *)

Section Turn.

Implicit Types (st : State) (msg : ReplyEntry) (world : World).

(** A turn that gets past its guard and whose chat call answers with an
    array: the user message, then what the entries contribute, in order;
    the chat call is the last thing the turn does to the outside. *)
Lemma sendMessage_reply world st data :
  trim (input st) ≠ "" → loading st = false →
  chat_response world = Body (DataArray data) →
  sendMessage world st =
    (let '(st2, newMsgs) := flatMap data (submitted st) in
     setLoading false (setMessages (λ prev, prev ++ newMsgs) st2),
     inject_context world (submitted st) ++
     [ PostChat (trim (input st)) (sessionId st) ]).
Proof.
  intros Htyped Hidle Hchat. unfold sendMessage.
  apply String.eqb_neq in Htyped. rewrite Htyped, Hidle, Hchat. simpl.
  fold (user_message st). fold (submitted st).
  destruct (flatMap data (submitted st)) as [st2 [| m newMsgs]];
    [| reflexivity].
  f_equal. unfold setLoading, setMessages. simpl. by rewrite app_nil_r.
Qed.

Lemma flatMap_singleton msg st : flatMap [msg] st =
  (fst (reply_callback msg st), snd (reply_callback msg st)).
Proof.
  simpl. destruct (reply_callback msg st). simpl. by rewrite app_nil_r.
Qed.

(** No entry contributes an error message. *)
Lemma reply_callback_no_error msg st :
  Forall (λ m, role m ≠ error) (snd (reply_callback msg st)).
Proof.
  unfold reply_callback, assistant_try.
  repeat case_match; simplify_eq; simpl; by repeat constructor.
Qed.

Lemma flatMap_no_error data st :
  Forall (λ m, role m ≠ error) (snd (flatMap data st)).
Proof.
  revert st. induction data as [| msg data IH]; intros st; simpl.
  - constructor.
  - pose proof (reply_callback_no_error msg st) as Hhere.
    destruct (reply_callback msg st) as [st1 here].
    specialize (IH st1). destruct (flatMap data st1) as [st2 there].
    simpl in *. apply Forall_app. by split.
Qed.

End Turn.

(** ** C2: an assistant entry that decodes *)

(** C2, as stated, fails where the decoded reply carries neither a widget
    identifier nor a text: for the reply
    [{"uri": "", "parameters": [], "text": ""}] the page does not append
    the decoded (empty) text but the raw content of the entry. *)
Lemma empty_reply_shows_raw_content :
  let msg := Example.widget_reply "" "" in
  let st := Example.calendar_open in
  content_json msg = Parsed (Example.reply_json "" "") ∧
  get_prop (Example.reply_json "" "") "uri" = Normal (str "") ∧
  get_prop (Example.reply_json "" "") "text" = Normal (str "") ∧
  reply_callback msg st ≠
    (setOpenWidgetUri None st, [ {| role := assistant; content := Text (str "") |} ]) ∧
  reply_callback msg st =
    (setOpenWidgetUri None st,
     [ {| role := assistant; content := Text (str (Example.reply_text "" "")) |} ]).
Proof. repeat split. vm_compute. discriminate. Qed.

(** C2, amended.  For every assistant entry whose non-empty content
    decodes, with [uri], [parameters] and [text] the fields of the decoded
    value: if [uri] is non-empty (truthy), the entry contributes a widget
    message for [uri] and [parameters], sets the pointer to [uri] and, when
    [text] is non-empty, contributes [text] as an assistant message right
    after the widget message; if [uri] is empty, the pointer is cleared,
    and the entry contributes [text] as a plain assistant message when
    [text] is non-empty, and otherwise its raw content. *)
Theorem assistant_entry_decoded
    (msg : ReplyEntry) (raw : string) (v : json) (st : State) :
  msg_role msg = "assistant" →
  msg_content msg = Some raw → raw ≠ "" →
  content_json msg = Parsed v →
  let uri := decoded_field v "uri" in
  let parameters := decoded_field v "parameters" in
  let text := decoded_field v "text" in
  let widget_msg :=
    {| role := widget; content := WidgetRendererElement uri parameters |} in
  let text_msg := {| role := assistant; content := Text text |} in
  let raw_msg := {| role := assistant; content := Text (str raw) |} in
  reply_callback msg st =
    match truthy_val uri, truthy_val text with
    | true, true => (setOpenWidgetUri uri st, [ widget_msg; text_msg ])
    | true, false => (setOpenWidgetUri uri st, [ widget_msg ])
    | false, true => (setOpenWidgetUri None st, [ text_msg ])
    | false, false => (setOpenWidgetUri None st, [ raw_msg ])
    end.
Proof.
  intros Hrole Hcontent Hraw Hjson. simpl.
  unfold reply_callback, assistant_try, decoded_field.
  rewrite Hrole, Hcontent, Hjson. simpl.
  apply String.eqb_neq in Hraw. rewrite Hraw. simpl.
  destruct v as [| b | x | s | items | fields]; simpl; try reflexivity.
  destruct (truthy_val (assoc "uri" fields)),
           (truthy_val (assoc "text" fields)); reflexivity.
Qed.

(** A reply that names the calendar and says [ok]. *)
Lemma assistant_entry_decoded_witness :
  reply_callback (Example.widget_reply "wip://calendar" "ok") Example.typed_hi =
    (setOpenWidgetUri (str "wip://calendar") Example.typed_hi,
     [ {| role := widget;
          content := WidgetRendererElement (str "wip://calendar")
                       (Some (JArray [])) |};
       {| role := assistant; content := Text (str "ok") |} ]).
Proof.
  refine (assistant_entry_decoded
            (Example.widget_reply "wip://calendar" "ok")
            (Example.reply_text "wip://calendar" "ok")
            (Example.reply_json "wip://calendar" "ok")
            Example.typed_hi eq_refl eq_refl _ eq_refl).
  discriminate.
Defined.

(** The two reply scenarios of the specification, as whole turns. *)
Example widget_reply_scenario :
  sendMessage (Example.answering (Normal CtxUndefined)
                 [ Example.widget_reply "wip://b" "ok" ]) Example.typed_hi =
  ({| messages :=
        [ {| role := user; content := Text (str "hi") |};
          {| role := widget;
             content := WidgetRendererElement (str "wip://b") (Some (JArray [])) |};
          {| role := assistant; content := Text (str "ok") |} ];
      input := ""; loading := false; sessionId := "default";
      openWidgetUri := str "wip://b" |},
   [ PostChat "hi" "default" ]).
Proof. reflexivity. Qed.

Example text_reply_scenario :
  sendMessage (Example.answering (Normal CtxUndefined)
                 [ Example.widget_reply "" "hello" ]) Example.calendar_open =
  ({| messages :=
        [ {| role := widget;
             content := WidgetRendererElement (str "wip://calendar") None |};
          {| role := user; content := Text (str "hi") |};
          {| role := assistant; content := Text (str "hello") |} ];
      input := ""; loading := false; sessionId := "default";
      openWidgetUri := None |},
   [ PostChat "hi" "default" ]).
Proof. reflexivity. Qed.

(** ** C6: an assistant entry that does not decode *)

(** C6, as stated, fails on an entry whose content is the empty string
    (which is not JSON): the page skips the entry, so no message is added
    and the pointer stays where it was. *)
Lemma empty_content_is_skipped :
  let msg := Example.assistant_entry "" SyntaxError in
  let st := Example.calendar_open in
  reply_callback msg st = (st, []) ∧
  openWidgetUri (fst (reply_callback msg st)) = str "wip://calendar" ∧
  messages (fst (sendMessage (Example.answering (Normal CtxUndefined) [ msg ]) st))
    = messages st ++ [ user_message st ].
Proof. by repeat split. Qed.

(** C6, amended.  For every assistant entry whose content is non-empty and
    fails to decode, the entry contributes exactly one plain assistant
    message holding the raw content and clears the pointer; and a turn
    whose reply is this entry ends with the user message and that one
    message added to the log, the pointer cleared, nothing reported as an
    error and the chat endpoint called once. *)
Theorem undecodable_entry_shown_raw
    (msg : ReplyEntry) (raw : string) (world : World) (st : State) :
  msg_role msg = "assistant" →
  msg_content msg = Some raw → raw ≠ "" →
  content_json msg = SyntaxError →
  trim (input st) ≠ "" → loading st = false →
  chat_response world = Body (DataArray [ msg ]) →
  let raw_msg := {| role := assistant; content := Text (str raw) |} in
  reply_callback msg st = (setOpenWidgetUri None st, [ raw_msg ]) ∧
  sendMessage world st =
    ({| messages := messages st ++ [ user_message st; raw_msg ];
        input := ""; loading := false; sessionId := sessionId st;
        openWidgetUri := None |},
     inject_context world (submitted st) ++
     [ PostChat (trim (input st)) (sessionId st) ]).
Proof.
  intros Hrole Hcontent Hraw Hjson Htyped Hidle Hchat raw_msg.
  assert (Hcb : ∀ st0, reply_callback msg st0 =
                       (setOpenWidgetUri None st0, [ raw_msg ])).
  { intros st0. unfold reply_callback, assistant_try.
    rewrite Hrole, Hcontent, Hjson. simpl.
    apply String.eqb_neq in Hraw. by rewrite Hraw. }
  split; [apply Hcb |].
  rewrite (sendMessage_reply world st [ msg ]) by done.
  rewrite flatMap_singleton, Hcb. simpl. f_equal.
  unfold setLoading, setMessages. simpl. f_equal.
  by rewrite <- app_assoc.
Qed.

(** A reply that is plain text, while the calendar is open. *)
Lemma undecodable_entry_witness :
  messages (fst (sendMessage
                   (Example.answering (Normal CtxUndefined)
                      [ Example.assistant_entry "not json" SyntaxError ])
                   Example.calendar_open)) =
    messages Example.calendar_open ++
    [ user_message Example.calendar_open;
      {| role := assistant; content := Text (str "not json") |} ].
Proof.
  refine (f_equal (λ out, messages (fst out))
            (proj2 (undecodable_entry_shown_raw
                      (Example.assistant_entry "not json" SyntaxError)
                      "not json"
                      (Example.answering (Normal CtxUndefined)
                         [ Example.assistant_entry "not json" SyntaxError ])
                      Example.calendar_open
                      eq_refl eq_refl _ eq_refl _ eq_refl eq_refl))).
  - discriminate.
  - vm_compute. discriminate.
Defined.

(* ===================================================================== *)
(** * Context injection                                                    *)
(* ===================================================================== *)

Section Injection.

Implicit Types (st : State) (world : World).

(** What the outcome of context injection can change: nothing in the
    page. *)
Lemma sendMessage_state_without_context world st :
  fst (sendMessage world st) = fst (sendMessage (without_context world) st).
Proof.
  unfold sendMessage. simpl.
  destruct (String.eqb (trim (input st)) "" || loading st); [done |].
  destruct (chat_response world) as [| | | [data |] | before]; try done.
  - simpl. by destruct (flatMap data _) as [st2 [| m newMsgs]].
  - simpl. by destruct (flatMap before _) as [st2 newMsgs].
Qed.

Lemma inject_context_fails world st :
  truthy_val (openWidgetUri st) = true → injection_fails world →
  ConsoleWarn "Context injection failed" ∈ inject_context world (submitted st) ∧
  ∀ message session_id,
    PostChat message session_id ∉ inject_context world (submitted st).
Proof.
  intros Hopen Hfails. unfold inject_context. simpl. rewrite Hopen.
  destruct Hfails as [-> | (context & -> & -> & ->)].
  - split; [by constructor |].
    intros message session_id Hin.
    by apply list_elem_of_singleton in Hin.
  - split; [by repeat constructor |].
    intros message session_id Hin.
    apply elem_of_cons in Hin as [? | Hin]; [done |].
    by apply list_elem_of_singleton in Hin.
Qed.

Lemma sendMessage_effects world st :
  trim (input st) ≠ "" → loading st = false →
  ∃ logged,
    snd (sendMessage world st) =
      inject_context world (submitted st) ++
      PostChat (trim (input st)) (sessionId st) :: logged.
Proof.
  intros Htyped Hidle. unfold sendMessage.
  apply String.eqb_neq in Htyped. rewrite Htyped, Hidle. simpl.
  fold (user_message st). fold (submitted st).
  destruct (chat_response world) as [| | | [data |] | before]; simpl; eauto.
  - destruct (flatMap data (submitted st)) as [st2 [| m newMsgs]]; simpl; eauto.
  - destruct (flatMap before (submitted st)) as [st2 newMsgs]; simpl; eauto.
Qed.

Lemma sendMessage_answered_no_error world st data :
  trim (input st) ≠ "" → loading st = false →
  chat_response world = Body data →
  ∃ appended,
    messages (fst (sendMessage world st)) =
      messages st ++ user_message st :: appended ∧
    Forall (λ m, role m ≠ error) appended.
Proof.
  intros Htyped Hidle Hchat. destruct data as [data |].
  - rewrite (sendMessage_reply world st data) by done.
    pose proof (flatMap_same_but_pointer data (submitted st)) as (Hmsgs & _).
    pose proof (flatMap_no_error data (submitted st)) as Hroles.
    destruct (flatMap data (submitted st)) as [st2 newMsgs]. simpl in *.
    exists newMsgs. split; [| done].
    by rewrite Hmsgs, <- app_assoc.
  - exists []. split; [| constructor].
    unfold sendMessage. apply String.eqb_neq in Htyped.
    by rewrite Htyped, Hidle, Hchat.
Qed.

End Injection.

(** ** C7: a failed context injection does not block the turn *)

(** C7.  In every turn that gets past its guard with a widget open and in
    which context injection fails (the widget's [getWidgetContext] throws,
    or the call of the injection endpoint rejects), the failure is caught
    (it is only logged as a warning), the chat endpoint is then called with
    the user's message, the page ends in the state it would end in had
    there been nothing to inject, and, when the chat call is answered, no
    error message is among the messages the turn appends. *)
Theorem injection_failure_does_not_block_turn (world : World) (st : State) :
  trim (input st) ≠ "" → loading st = false →
  truthy_val (openWidgetUri st) = true →
  injection_fails world →
  (∃ before after,
      snd (sendMessage world st) =
        before ++ PostChat (trim (input st)) (sessionId st) :: after ∧
      ConsoleWarn "Context injection failed" ∈ before ∧
      ∀ message session_id, PostChat message session_id ∉ before) ∧
  fst (sendMessage world st) = fst (sendMessage (without_context world) st) ∧
  (∀ data, chat_response world = Body data →
     ∃ appended,
       messages (fst (sendMessage world st)) =
         messages st ++ user_message st :: appended ∧
       Forall (λ m, role m ≠ error) appended).
Proof.
  intros Htyped Hidle Hopen Hfails. split; [| split].
  - destruct (sendMessage_effects world st Htyped Hidle) as [logged ->].
    destruct (inject_context_fails world st Hopen Hfails) as [Hwarn Hnochat].
    by exists (inject_context world (submitted st)), logged.
  - apply sendMessage_state_without_context.
  - intros data Hchat. by apply sendMessage_answered_no_error with data.
Qed.

(** The calendar is open and the injection endpoint cannot be reached. *)
Lemma injection_failure_witness :
  fst (sendMessage Example.network_down Example.calendar_open) =
  fst (sendMessage (without_context Example.network_down) Example.calendar_open).
Proof.
  refine (proj1 (proj2 (injection_failure_does_not_block_turn
                          Example.network_down Example.calendar_open
                          _ eq_refl eq_refl _))).
  - vm_compute. discriminate.
  - right. exists (CtxString "2 appointments"). by repeat split.
Defined.

(** The scenario of the specification: the injection call throws a network
    error; the chat call is still issued with the user's message and the
    log gains the user message and the reply, nothing else. *)
Example injection_network_error_scenario :
  sendMessage Example.network_down Example.calendar_open =
  ({| messages :=
        [ {| role := widget;
             content := WidgetRendererElement (str "wip://calendar") None |};
          {| role := user; content := Text (str "hi") |};
          {| role := assistant; content := Text (str "hello") |} ];
      input := ""; loading := false; sessionId := "default";
      openWidgetUri := None |},
   [ PostContextInjection (CtxString "2 appointments") "default";
     ConsoleWarn "Context injection failed";
     PostChat "hi" "default" ]).
Proof. reflexivity. Qed.

(* ===================================================================== *)
(** * Identifiers that were never registered                               *)
(* ===================================================================== *)

Section Unknown.

Variable registry : registry_t.


(** ... and a registered one to its widget. *)
Lemma getWidget_registered id w :
  registry !! id = Some w → getWidget registry id = Some (Registered w).
Proof. intros Hsome. unfold getWidget. by rewrite Hsome. Qed.

(** A name of [Object.prototype] that was not registered resolves to the
    member inherited under that name. *)
Lemma getWidget_inherited id :
  registry !! id = None → id ∈ Object_prototype →
  getWidget registry id = Some (Inherited id).
Proof.
  intros Hnone Hproto. unfold getWidget. rewrite Hnone.
  by rewrite bool_decide_eq_true_2.
Qed.

(** The renderer answers an identifier that resolves to [undefined] with
    the "Unknown widget" placeholder, on every render, and calls no hook. *)
Lemma WidgetRenderer_unknown props hooks :
  getWidget registry (uri props) = None →
  ∃ hooks', WidgetRenderer registry props hooks =
              (UnknownWidget (uri props), hooks', []).
Proof.
  intros Hnone. unfold WidgetRenderer. rewrite Hnone. simpl.
  rewrite andb_false_r. eauto.
Qed.


(** The agent path does not look the identifier up: a reply naming a widget
    nobody registered still contributes a widget message and moves the
    pointer; rendering that message shows the placeholder. *)
Lemma reply_with_unknown_widget id text st :
  id ≠ "" → getWidget registry id = None →
  ∃ rest,
    reply_callback (Example.widget_reply id text) st =
      (setOpenWidgetUri (str id) st,
       {| role := widget;
          content := WidgetRendererElement (str id) (Some (JArray [])) |}
       :: rest) ∧
    shown (mount registry {| uri := id; parameters := Some [] |}) =
      UnknownWidget id.
Proof.
  intros Hid Hnone. unfold reply_callback, assistant_try. simpl.
  apply String.eqb_neq in Hid. rewrite Hid. simpl.
  destruct (negb (String.eqb text "")); eexists;
    (split; [reflexivity |]);
    unfold mount, WidgetRenderer; simpl; by rewrite Hnone.
Qed.

End Unknown.

(** ** C5: resolving an identifier that is not in the registry *)

(** C5 on the code: [constructor] was never registered, yet [getWidget]
    does not answer [undefined] for it: the property read on the registry
    object finds the member that every object inherits from
    [Object.prototype].  The renderer therefore does not take its
    "Unknown widget" branch and renders that member as if it were a
    widget. *)
Theorem getWidget_constructor_not_undefined :
  Example.registry !! "constructor" = None ∧
  getWidget Example.registry "constructor" = Some (Inherited "constructor") ∧
  shown (mount Example.registry {| uri := "constructor"; parameters := None |})
    = WidgetInstance (Inherited "constructor") None ∧
  shown (mount Example.registry {| uri := "constructor"; parameters := None |})
    ≠ UnknownWidget "constructor".
Proof. repeat split. discriminate. Qed.

(** ** C10: the picker path and an identifier that is not in the registry *)




(* ===================================================================== *)
(** * Further properties: the registry                                     *)
(* ===================================================================== *)

(** X1.  Resolving after a registration of entries none of which is keyed
    [__proto__]: an identifier among the new entries resolves to the
    widget just registered under it (a later registration replaces an
    earlier one), and every other identifier resolves as it did before. *)
Theorem getWidget_registerWidgets
    (entries registry : registry_t) (id : WidgetId) :
  assignable entries →
  getWidget (registerWidgets entries registry) id =
    match entries !! id with
    | Some w => Some (Registered w)
    | None => getWidget registry id
    end.
Proof.
  intros _. unfold getWidget, registerWidgets.
  destruct (entries !! id) as [w |] eqn:Hid.
  - by rewrite (lookup_union_Some_l entries registry id w Hid).
  - by rewrite (lookup_union_r entries registry id Hid).
Qed.

(** Registering the QR scanner under the calendar's identifier replaces
    the calendar and leaves the stock inspector alone. *)
Lemma getWidget_registerWidgets_witness :
  getWidget
    (registerWidgets {[ "wip://calendar" := Example.QRScannerWidget ]}
       Example.registry) "wip://calendar"
    = Some (Registered Example.QRScannerWidget) ∧
  getWidget
    (registerWidgets {[ "wip://calendar" := Example.QRScannerWidget ]}
       Example.registry) "wip://stock-level-inspector"
    = getWidget Example.registry "wip://stock-level-inspector".
Proof.
  split.
  - exact (getWidget_registerWidgets
             {[ "wip://calendar" := Example.QRScannerWidget ]}
             Example.registry "wip://calendar" eq_refl).
  - exact (getWidget_registerWidgets
             {[ "wip://calendar" := Example.QRScannerWidget ]}
             Example.registry "wip://stock-level-inspector" eq_refl).
Defined.


(** X3.  [getWidget] answers [undefined] exactly for the identifiers that
    are neither registered nor a property name of [Object.prototype], and
    with a registered widget exactly for the registered identifiers. *)
Theorem getWidget_answers (registry : registry_t) (id : WidgetId) :
  (getWidget registry id = None ↔
     registry !! id = None ∧ id ∉ Object_prototype) ∧
  (∀ w, getWidget registry id = Some (Registered w) ↔ registry !! id = Some w).
Proof.
  unfold getWidget. split.
  - destruct (registry !! id) as [w |].
    + split; [done | by intros [? _]].
    + case_bool_decide as Hproto; split; try done.
      by intros [_ ?].
  - intros w. destruct (registry !! id) as [w' |].
    + split; by intros [= ->].
    + case_bool_decide; split; done.
Qed.

(* ===================================================================== *)
(** * Further properties: the renderer                                     *)
(* ===================================================================== *)

Section Params.

Variable registry : registry_t.

Lemma run_snoc inst events ev :
  run registry inst (events ++ [ev]) = step registry (run registry inst events) ev.
Proof. unfold run. by rewrite foldl_snoc. Qed.

Lemma run_cur_props props events :
  uri (cur_props (run registry (mount registry props) events)) =
  current_uri props events.
Proof.
  unfold current_uri.
  induction events as [| ev events IH] using rev_ind; [done |].
  rewrite run_snoc. unfold rerendered in *. rewrite omap_app.
  destruct ev as [p | v]; simpl.
  - by rewrite last_snoc.
  - by rewrite app_nil_r.
Qed.

Lemma run_state_params props events :
  state_params (hooks (run registry (mount registry props) events)) =
  default (paramObj (parameters props)) (last (set_values events)).
Proof.
  induction events as [| ev events IH] using rev_ind; [done |].
  rewrite run_snoc. unfold set_values in *. rewrite omap_app.
  destruct ev as [p | v]; simpl.
  - by rewrite app_nil_r.
  - by rewrite last_snoc.
Qed.

Lemma step_shown inst ev :
  shown (step registry inst ev) =
  match getWidget registry (uri (cur_props (step registry inst ev))) with
  | None => UnknownWidget (uri (cur_props (step registry inst ev)))
  | Some W => WidgetInstance W (state_params (hooks (step registry inst ev)))
  end.
Proof. by destruct ev. Qed.

End Params.

(** X4.  What a mounted renderer hands to the widget: the parameter list it
    was mounted with, normalized, until the widget calls [setParams], and
    from then on the value of the last [setParams] call.  The [parameters]
    prop of a later render by the parent is never looked at.  The widget
    shown is the one of the identifier last asked for. *)
Theorem renderer_params_after_events
    (registry : registry_t) (props : Props) (events : list Event) :
  let inst := run registry (mount registry props) events in
  let params := default (paramObj (parameters props)) (last (set_values events)) in
  let id := current_uri props events in
  state_params (hooks inst) = params ∧
  shown inst =
    match getWidget registry id with
    | None => UnknownWidget id
    | Some W => WidgetInstance W params
    end.
Proof.
  simpl. split; [apply run_state_params |].
  destruct events as [| ev events _] using rev_ind; [done |].
  rewrite run_snoc, step_shown, <- !run_snoc.
  by rewrite run_cur_props, run_state_params.
Qed.

Section FromEntries.

Implicit Types (es : list (string * jsval)) (obj : ParamObj).

Lemma fromEntries_app_union es1 es2 :
  fromEntries (es1 ++ es2) = fromEntries es2 ∪ fromEntries es1.
Proof.
  induction es2 as [| [k v] es2 IH] using rev_ind.
  - by rewrite app_nil_r, fromEntries_nil, (left_id_L ∅ (∪)).
  - rewrite app_assoc, !fromEntries_snoc, IH. by rewrite insert_union_l.
Qed.

End FromEntries.

(** X5.  [Object.fromEntries] over a concatenation: the object of the
    second list laid over the object of the first, the second winning on
    shared names. *)
Theorem fromEntries_concat (es1 es2 : list (string * jsval)) :
  fromEntries (es1 ++ es2) = fromEntries es2 ∪ fromEntries es1 ∧
  ∀ k, fromEntries (es1 ++ es2) !! k =
         match fromEntries es2 !! k with
         | Some v => Some v
         | None => fromEntries es1 !! k
         end.
Proof.
  split; [apply fromEntries_app_union |].
  intros k. rewrite fromEntries_app_union, lookup_union.
  by destruct (fromEntries es2 !! k), (fromEntries es1 !! k).
Qed.

(** X6.  Round trip: listing the pairs of a parameter object and
    normalizing them again gives the object back, whatever the order in
    which the pairs are listed. *)
Theorem fromEntries_of_pairs (obj : ParamObj) (es : list (string * jsval)) :
  es ≡ₚ map_to_list obj → fromEntries es = obj.
Proof.
  intros Hperm. apply map_eq. intros k. apply option_eq. intros v.
  assert (Hnd : NoDup es.*1).
  { rewrite Hperm. apply NoDup_fst_map_to_list. }
  rewrite lookup_fromEntries_NoDup by done.
  by rewrite Hperm, elem_of_map_to_list.
Qed.

(** The pairs of [{x: "1"}], normalized again. *)
Lemma fromEntries_of_pairs_witness :
  fromEntries (map_to_list ({[ "x" := str "1" ]} : ParamObj)) =
  {[ "x" := str "1" ]}.
Proof. apply fromEntries_of_pairs. reflexivity. Defined.

(* ===================================================================== *)
(** * Further properties: a turn                                           *)
(* ===================================================================== *)

Section TurnFacts.

Implicit Types (st : State) (msg : ReplyEntry) (world : World).

Lemma trimStart_all_white_space s :
  all_white_space s = true → trimStart s = "".
Proof.
  induction s as [| c s IH]; [done |]. simpl.
  intros [Hc Hs]%andb_prop. rewrite Hc. by apply IH.
Qed.

Lemma trim_all_white_space s : all_white_space s = true → trim s = "".
Proof.
  intros Hs. unfold trim. by rewrite (trimStart_all_white_space s Hs).
Qed.

Lemma sendMessage_running world st :
  trim (input st) ≠ "" → loading st = false →
  sendMessage world st =
    (let '(st', logged) :=
       match chat_response world with
       | FetchRejects | NotOk | BodyNotJson =>
           (setMessages (λ prev, prev ++ [ error_message ]) (submitted st),
            [ ConsoleError "Error:" ])
       | Body (DataArray data) =>
           let '(st2, newMsgs) := flatMap data (submitted st) in
           (setMessages (λ prev, prev ++ newMsgs) st2, [])
       | Body DataOther => (submitted st, [])
       | ArrayWithNull before =>
           (setMessages (λ prev, prev ++ [ error_message ])
              (fst (flatMap before (submitted st))),
            [ ConsoleError "Error:" ])
       end in
     (setLoading false st',
      inject_context world (submitted st) ++
      PostChat (trim (input st)) (sessionId st) :: logged)).
Proof.
  intros Htyped Hidle. unfold sendMessage.
  apply String.eqb_neq in Htyped. rewrite Htyped, Hidle. simpl.
  fold (user_message st). fold (submitted st).
  destruct (chat_response world) as [| | | [data |] | before];
    try reflexivity; [| by destruct (flatMap before (submitted st))].
  destruct (flatMap data (submitted st)) as [st2 [| m newMsgs]];
    [| reflexivity].
  f_equal. unfold setLoading, setMessages. simpl. by rewrite app_nil_r.
Qed.

Lemma reply_callback_roles msg st :
  Forall (λ m, role m ≠ user ∧ role m ≠ error) (snd (reply_callback msg st)).
Proof.
  unfold reply_callback, assistant_try.
  repeat case_match; simplify_eq; simpl; by repeat constructor.
Qed.

Lemma flatMap_roles data st :
  Forall (λ m, role m ≠ user ∧ role m ≠ error) (snd (flatMap data st)).
Proof.
  revert st. induction data as [| msg data IH]; intros st; simpl.
  - constructor.
  - pose proof (reply_callback_roles msg st) as Hhere.
    destruct (reply_callback msg st) as [st1 here].
    specialize (IH st1). destruct (flatMap data st1) as [st2 there].
    simpl in *. apply Forall_app. by split.
Qed.

Lemma flatMap_app data1 data2 st :
  flatMap (data1 ++ data2) st =
    (fst (flatMap data2 (fst (flatMap data1 st))),
     snd (flatMap data1 st) ++ snd (flatMap data2 (fst (flatMap data1 st)))).
Proof.
  revert st. induction data1 as [| msg data1 IH]; intros st; simpl.
  - by destruct (flatMap data2 st).
  - destruct (reply_callback msg st) as [st1 here]. rewrite IH.
    destruct (flatMap data1 st1) as [st2 there]. simpl.
    by rewrite app_assoc.
Qed.

(** The pointer an assistant entry leaves does not depend on the state it
    is applied to. *)
Lemma reply_callback_assistant_pointer msg st st' :
  is_assistant_entry msg = true →
  openWidgetUri (fst (reply_callback msg st)) =
  openWidgetUri (fst (reply_callback msg st')).
Proof.
  unfold is_assistant_entry, reply_callback, assistant_try.
  intros Hassistant. rewrite Hassistant.
  apply andb_prop in Hassistant as [Hrole _].
  apply String.eqb_eq in Hrole. rewrite Hrole. simpl.
  repeat case_match; simplify_eq; reflexivity.
Qed.

Lemma reply_callback_not_assistant msg st :
  is_assistant_entry msg = false →
  fst (reply_callback msg st) = st.
Proof.
  unfold is_assistant_entry, reply_callback. intros ->.
  by destruct (String.eqb (msg_role msg) "tool" && truthy_str (msg_result msg)).
Qed.

Lemma flatMap_not_assistant data st :
  forallb (λ msg, negb (is_assistant_entry msg)) data = true →
  fst (flatMap data st) = st.
Proof.
  revert st. induction data as [| msg data IH]; intros st; [done |].
  simpl. intros [Hmsg Hdata]%andb_prop. apply negb_true_iff in Hmsg.
  pose proof (reply_callback_not_assistant msg st Hmsg) as Hst.
  destruct (reply_callback msg st) as [st1 here]. simpl in Hst. subst st1.
  specialize (IH st Hdata). by destruct (flatMap data st).
Qed.

End TurnFacts.

(** X7.  A turn is refused, with no change to the page and no network
    call, when the input holds white space only (or nothing) and when
    another turn is in flight. *)
Theorem sendMessage_refused (world : World) (st : State) :
  all_white_space (input st) = true ∨ loading st = true →
  sendMessage world st = (st, []).
Proof.
  intros [Hblank | Hbusy]; apply sendMessage_blocked.
  - left. by apply trim_all_white_space.
  - by right.
Qed.

(** Spaces and a line break are not a message; nor is [hi] while the
    previous turn is in flight. *)
Lemma sendMessage_refused_witness :
  sendMessage Example.network_down (setInput "  
 " Example.calendar_open)
    = (setInput "  
 " Example.calendar_open, []) ∧
  sendMessage Example.network_down (setInput "hi" (submitted Example.calendar_open))
    = (setInput "hi" (submitted Example.calendar_open), []).
Proof.
  split.
  - apply sendMessage_refused. left. reflexivity.
  - apply sendMessage_refused. right. reflexivity.
Defined.

(** X8.  A turn that runs only appends to the log: the log it finds, then
    the user's trimmed text as a user message, then messages none of which
    is a user message.  It leaves the input empty and the in-flight flag
    off, and does not touch the session identifier. *)
Theorem sendMessage_appends (world : World) (st : State) :
  trim (input st) ≠ "" → loading st = false →
  let st' := fst (sendMessage world st) in
  (∃ appended,
      messages st' = messages st ++ user_message st :: appended ∧
      Forall (λ m, role m ≠ user) appended) ∧
  input st' = "" ∧ loading st' = false ∧ sessionId st' = sessionId st.
Proof.
  intros Htyped Hidle. rewrite sendMessage_running by done.
  destruct (chat_response world) as [| | | [data |] | before]; simpl.
  1-3: split; [| done]; exists [ error_message ]; split;
    [by rewrite <- app_assoc | by repeat constructor].
  - pose proof (flatMap_same_but_pointer data (submitted st))
      as (Hmsgs & Hinput & _ & Hsession).
    pose proof (flatMap_roles data (submitted st)) as Hroles.
    destruct (flatMap data (submitted st)) as [st2 newMsgs]. simpl in *.
    split; [| by rewrite Hsession].
    exists newMsgs. split; [by rewrite Hmsgs, <- app_assoc |].
    eapply Forall_impl; [exact Hroles |]. by intros m [? _].
  - split; [| done]. exists []. split; [done | constructor].
  - pose proof (flatMap_same_but_pointer before (submitted st))
      as (Hmsgs & Hinput & _ & Hsession).
    rewrite Hmsgs, Hinput, Hsession. simpl.
    split; [| done]. exists [ error_message ]. split;
      [by rewrite <- app_assoc | by repeat constructor].
Qed.

Lemma sendMessage_appends_witness :
  input (fst (sendMessage Example.network_down Example.calendar_open)) = "" ∧
  loading (fst (sendMessage Example.network_down Example.calendar_open)) = false ∧
  sessionId (fst (sendMessage Example.network_down Example.calendar_open)) =
    sessionId Example.calendar_open.
Proof.
  refine (proj2 (sendMessage_appends Example.network_down
                     Example.calendar_open _ eq_refl)).
  vm_compute. discriminate.
Defined.

(** X9.  When the chat call fails (the request rejects, the status is not
    ok, or the body is not JSON), the turn appends exactly the user message
    and one error message, leaves the pointer where it was, and reports the
    error on the console after the chat request. *)
Theorem sendMessage_chat_failure (world : World) (st : State) :
  trim (input st) ≠ "" → loading st = false →
  chat_failed world = true →
  sendMessage world st =
    ({| messages := messages st ++ [ user_message st; error_message ];
        input := ""; loading := false; sessionId := sessionId st;
        openWidgetUri := openWidgetUri st |},
     inject_context world (submitted st) ++
     [ PostChat (trim (input st)) (sessionId st); ConsoleError "Error:" ]).
Proof.
  intros Htyped Hidle Hfailed. rewrite sendMessage_running by done.
  unfold chat_failed in Hfailed.
  destruct (chat_response world); try done;
    unfold setLoading, setMessages; simpl; by rewrite <- app_assoc.
Qed.

Lemma sendMessage_chat_failure_witness :
  messages (fst (sendMessage
                   {| exported_context := Throws;
                      injection_response := Throws;
                      chat_response := NotOk |} Example.typed_hi)) =
  [ user_message Example.typed_hi; error_message ].
Proof.
  refine (f_equal (λ out, messages (fst out))
            (sendMessage_chat_failure
               {| exported_context := Throws; injection_response := Throws;
                  chat_response := NotOk |} Example.typed_hi _ eq_refl eq_refl)).
  vm_compute. discriminate.
Defined.

(** X10.  The network calls of a turn that runs: the chat endpoint is
    called exactly once, last, with the trimmed input and the session
    identifier; the injection endpoint is called before it, once, with the
    exported context and the same session identifier, exactly when a
    widget is open and exports a non-empty context, and not at all
    otherwise. *)
Theorem sendMessage_requests (world : World) (st : State) :
  trim (input st) ≠ "" → loading st = false →
  List.filter is_request (snd (sendMessage world st)) =
    match openWidgetUri st, exported_context world with
    | Some u, Normal context =>
        if truthy u && context_nonempty context
        then [ PostContextInjection context (sessionId st);
               PostChat (trim (input st)) (sessionId st) ]
        else [ PostChat (trim (input st)) (sessionId st) ]
    | _, _ => [ PostChat (trim (input st)) (sessionId st) ]
    end.
Proof.
  intros Htyped Hidle. rewrite sendMessage_running by done.
  assert (Hlogged : ∀ (out : State * list Effect),
            out.2 = [] ∨ out.2 = [ ConsoleError "Error:" ] →
            List.filter is_request
              (inject_context world (submitted st) ++
               PostChat (trim (input st)) (sessionId st) :: out.2) =
            List.filter is_request (inject_context world (submitted st)) ++
            [ PostChat (trim (input st)) (sessionId st) ]).
  { intros out Hout. rewrite List.filter_app. simpl.
    by destruct Hout as [-> | ->]. }
  set (out := match chat_response world with
              | FetchRejects | NotOk | BodyNotJson => _
              | Body _ => _
              | ArrayWithNull _ => _ end).
  assert (Hout : out.2 = [] ∨ out.2 = [ ConsoleError "Error:" ]).
  { unfold out. destruct (chat_response world) as [| | | [data |] | before];
      simpl; auto.
    destruct (flatMap data (submitted st)); simpl; auto. }
  specialize (Hlogged out Hout). destruct out as [st' logged]. simpl in *.
  rewrite Hlogged. unfold inject_context. simpl.
  destruct (openWidgetUri st) as [u |]; simpl; [| done].
  destruct (truthy u); simpl; [| by destruct (exported_context world)].
  destruct (exported_context world) as [| context]; simpl; [done |].
  destruct (context_nonempty context); simpl; [| done].
  by destruct (injection_response world).
Qed.

Lemma sendMessage_requests_witness :
  List.filter is_request
    (snd (sendMessage Example.network_down Example.calendar_open)) =
  [ PostContextInjection (CtxString "2 appointments") "default";
    PostChat "hi" "default" ].
Proof.
  refine (sendMessage_requests Example.network_down Example.calendar_open
            _ eq_refl).
  vm_compute. discriminate.
Defined.

(** X11.  When the chat call is answered with a body that is not an array,
    or with an array whose elements are all objects, the turn reports no
    error: no error message is among the messages it appends and nothing
    is written to the error console.  A body that is not an array is
    dropped without a trace: only the user message is appended and the
    pointer stays where it was. *)
Theorem sendMessage_answered_reports_no_error
    (world : World) (st : State) (data : ChatData) :
  trim (input st) ≠ "" → loading st = false →
  chat_response world = Body data →
  let st' := fst (sendMessage world st) in
  (∃ appended,
      messages st' = messages st ++ user_message st :: appended ∧
      Forall (λ m, role m ≠ error) appended ∧
      (data = DataOther →
       appended = [] ∧ openWidgetUri st' = openWidgetUri st)) ∧
  ∀ what, ConsoleError what ∉ snd (sendMessage world st).
Proof.
  intros Htyped Hidle Hanswered. rewrite sendMessage_running by done.
  assert (Hinject : ∀ what,
            ConsoleError what ∉ inject_context world (submitted st)).
  { intros what. unfold inject_context.
    repeat case_match; intros Hin;
      repeat (apply elem_of_cons in Hin as [? | Hin]; [done |]);
      by apply elem_of_nil in Hin. }
  rewrite Hanswered. destruct data as [data |]; simpl.
  - pose proof (flatMap_same_but_pointer data (submitted st)) as (Hmsgs & _).
    pose proof (flatMap_roles data (submitted st)) as Hroles.
    destruct (flatMap data (submitted st)) as [st2 newMsgs]. simpl in *.
    split.
    + exists newMsgs. split; [by rewrite Hmsgs, <- app_assoc |].
      split; [| done].
      eapply Forall_impl; [exact Hroles |]. by intros m [_ ?].
    + intros what Hin. apply elem_of_app in Hin as [Hin | Hin].
      * by apply (Hinject what).
      * apply elem_of_cons in Hin as [? | Hin]; [done |].
        by apply elem_of_nil in Hin.
  - split.
    + exists []. by repeat split.
    + intros what Hin. apply elem_of_app in Hin as [Hin | Hin].
      * by apply (Hinject what).
      * apply elem_of_cons in Hin as [? | Hin]; [done |].
        by apply elem_of_nil in Hin.
Qed.

Lemma sendMessage_answered_witness :
  ConsoleError "Error:" ∉
    snd (sendMessage
           (Example.answering (Normal CtxUndefined)
              [ Example.tool_entry "stock" "12 left";
                Example.widget_reply "wip://calendar" "ok" ])
           Example.typed_hi).
Proof.
  refine (proj2 (sendMessage_answered_reports_no_error
                   (Example.answering (Normal CtxUndefined)
                      [ Example.tool_entry "stock" "12 left";
                        Example.widget_reply "wip://calendar" "ok" ])
                   Example.typed_hi _ _ eq_refl eq_refl) "Error:").
  vm_compute. discriminate.
Defined.



(* ===================================================================== *)
(** * Further properties: applying a reply                                 *)
(* ===================================================================== *)

(** X12.  Entries are applied one after the other: the messages of a reply
    are the messages of its first part followed by those of the rest, and
    the rest is applied to the state the first part leaves. *)
Theorem flatMap_concat (data1 data2 : list ReplyEntry) (st : State) :
  flatMap (data1 ++ data2) st =
    (fst (flatMap data2 (fst (flatMap data1 st))),
     snd (flatMap data1 st) ++ snd (flatMap data2 (fst (flatMap data1 st)))).
Proof. apply flatMap_app. Qed.

(** X13.  The pointer a reply leaves is decided by its last assistant entry
    alone: entries before it and tool entries after it make no difference,
    and a reply without assistant entries leaves the pointer as it was. *)
Theorem pointer_after_reply
    (before after : list ReplyEntry) (msg : ReplyEntry) (st : State) :
  (is_assistant_entry msg = true →
   forallb (λ m, negb (is_assistant_entry m)) after = true →
   openWidgetUri (fst (flatMap (before ++ msg :: after) st)) =
   openWidgetUri (fst (reply_callback msg st))) ∧
  (forallb (λ m, negb (is_assistant_entry m)) after = true →
   fst (flatMap after st) = st).
Proof.
  split; [| apply flatMap_not_assistant].
  intros Hmsg Hafter.
  change (msg :: after) with ([msg] ++ after).
  rewrite !flatMap_app. cbn [fst snd].
  rewrite flatMap_not_assistant by done.
  rewrite flatMap_singleton. cbn [fst snd].
  by apply reply_callback_assistant_pointer.
Qed.

(** X14.  Tool entries alone: each is shown as one tool message, in order,
    and nothing else on the page changes. *)
Theorem flatMap_tool_entries (data : list ReplyEntry) (st : State) :
  forallb is_tool_entry data = true →
  flatMap data st = (st, map tool_message data).
Proof.
  revert st. induction data as [| msg data IH]; intros st; [done |].
  simpl. intros [Hmsg Hdata]%andb_prop.
  unfold reply_callback. unfold is_tool_entry in Hmsg. rewrite Hmsg.
  by rewrite (IH st Hdata).
Qed.

Lemma flatMap_tool_entries_witness :
  flatMap [ Example.tool_entry "stock" "12 left" ] Example.calendar_open =
  (Example.calendar_open, [ tool_message (Example.tool_entry "stock" "12 left") ]).
Proof. apply (flatMap_tool_entries [ _ ]). reflexivity. Defined.

(** X15.  An entry contributes a widget message exactly when it moves the
    pointer to a widget: the widget message, if any, is the first message
    of the entry, there is at most one, its identifier is truthy, and the
    pointer the entry leaves is that identifier. *)
Theorem reply_callback_widget_message (msg : ReplyEntry) (st : State) :
  let out := reply_callback msg st in
  (widget_messages (snd out) = [] ∧
   (openWidgetUri (fst out) = None ∨ fst out = st)) ∨
  (∃ uri parameters rest,
      snd out = {| role := widget;
                   content := WidgetRendererElement uri parameters |} :: rest ∧
      widget_messages rest = [] ∧
      truthy_val uri = true ∧
      openWidgetUri (fst out) = uri).
Proof.
  unfold reply_callback, assistant_try.
  repeat case_match; simplify_eq; simpl;
    first [ left; split; [reflexivity | by auto]
          | right; eexists _, _, _; by repeat split ].
Qed.

(** X16.  A turn whose reply is a single assistant entry that opens no
    widget clears the pointer and keeps every widget message of the log:
    from then on the pointer no longer names the most recent widget
    message, although that message is still shown. *)
Theorem text_reply_clears_pointer
    (world : World) (msg : ReplyEntry) (st : State) :
  trim (input st) ≠ "" → loading st = false →
  chat_response world = Body (DataArray [ msg ]) →
  text_only msg = true →
  let st' := fst (sendMessage world st) in
  openWidgetUri st' = None ∧
  widget_messages (messages st') = widget_messages (messages st) ∧
  (widget_messages (messages st) ≠ [] → log_ok (messages st) →
   ¬ pointer_names_most_recent_widget st').
Proof.
  intros Htyped Hidle Hchat Htext.
  rewrite (sendMessage_reply world st [ msg ]) by done.
  rewrite flatMap_singleton.
  assert (Hcb : ∃ t, reply_callback msg (submitted st) =
                     (setOpenWidgetUri None (submitted st),
                      [ {| role := assistant; content := Text t |} ])).
  { unfold text_only in Htext. apply andb_prop in Htext as [Hassistant Huri].
    unfold reply_callback, assistant_try.
    unfold is_assistant_entry in Hassistant. rewrite Hassistant.
    apply andb_prop in Hassistant as [Hrole _].
    apply String.eqb_eq in Hrole. rewrite Hrole. simpl.
    destruct (content_json msg) as [| v]; [by eexists |].
    unfold decoded_field in Huri.
    destruct (get_prop v "uri") as [| uri] eqn:Hget.
    - destruct v; try done. by eexists.
    - apply negb_true_iff in Huri.
      destruct v; simpl in *; simplify_eq; simpl; try by eexists.
      rewrite Huri.
      destruct (truthy_val (assoc "text" fields)); by eexists. }
  destruct Hcb as [t ->]. simpl.
  assert (Hkept : widget_messages
                    ((messages st ++ [ user_message st ]) ++
                     [ {| role := assistant; content := Text t |} ]) =
                  widget_messages (messages st)).
  { rewrite !widget_messages_app. simpl. by rewrite !app_nil_r. }
  split; [done |]. split; [exact Hkept |].
  intros Hsome Hok. unfold pointer_names_most_recent_widget. simpl.
  unfold most_recent_widget. rewrite Hkept.
  destruct (last (widget_messages (messages st))) as [m |] eqn:Hlast.
  - pose proof (last_widget_pointer (messages st) Hok) as Hptr.
    unfold most_recent_widget in Hptr. rewrite Hlast in Hptr. simpl in *.
    assert (Hm : m ∈ widget_messages (messages st))
      by by apply last_Some_elem_of.
    apply list_elem_of_In, List.filter_In in Hm as [Hin Hw].
    apply list_elem_of_In in Hin.
    unfold log_ok in Hok. rewrite Forall_forall in Hok.
    specialize (Hok m Hin).
    unfold is_widget in Hw. apply bool_decide_eq_true in Hw.
    unfold widget_message_ok in Hok. rewrite Hw in Hok.
    destruct (content m) as [| | [[| | | s | |] |] ?]; done.
  - by apply last_None in Hlast.
Qed.

Lemma text_reply_clears_pointer_witness :
  openWidgetUri
    (fst (sendMessage
            (Example.answering (Normal CtxUndefined)
               [ Example.widget_reply "" "hello" ])
            Example.calendar_open)) = None.
Proof.
  refine (proj1 (text_reply_clears_pointer
                   (Example.answering (Normal CtxUndefined)
                      [ Example.widget_reply "" "hello" ])
                   (Example.widget_reply "" "hello")
                   Example.calendar_open _ eq_refl eq_refl eq_refl)).
  vm_compute. discriminate.
Defined.

(* ===================================================================== *)
(** * Further properties: removing and adding widgets                      *)
(* ===================================================================== *)

Section Removal.

Implicit Types (st : State) (log : list ChatMessage).

Lemma other_messages_app log1 log2 :
  other_messages (log1 ++ log2) = other_messages log1 ++ other_messages log2.
Proof. apply List.filter_app. Qed.

Lemma handleRemoveWidget_frame st :
  input (handleRemoveWidget st) = input st ∧
  loading (handleRemoveWidget st) = loading st ∧
  sessionId (handleRemoveWidget st) = sessionId st.
Proof.
  unfold handleRemoveWidget.
  by destruct (findIndex is_widget (reverse (messages st))).
Qed.

End Removal.

(** X17.  Removing takes out exactly the most recent widget message and
    nothing else: the widget messages lose their last element, the other
    messages stay as they are and in their order, the log gets shorter by
    one, and input, in-flight flag and session are untouched.  With no
    widget message in the log, nothing changes at all. *)
Theorem handleRemoveWidget_removes_most_recent (st : State) :
  let st' := handleRemoveWidget st in
  widget_messages (messages st') = removelast (widget_messages (messages st)) ∧
  other_messages (messages st') = other_messages (messages st) ∧
  length (messages st') =
    length (messages st) - (if widget_messages (messages st) is [] then 0 else 1) ∧
  input st' = input st ∧ loading st' = loading st ∧
  sessionId st' = sessionId st ∧
  (widget_messages (messages st) = [] → st' = st).
Proof.
  simpl. pose proof (handleRemoveWidget_frame st) as (Hinput & Hloading & Hsession).
  destruct (handleRemoveWidget_removes_last st)
    as [[Hnone ->] | (before & w & after & Hsplit & Hw & Hafter & Hmsgs & _)].
  - rewrite Hnone. simpl. repeat split. lia.
  - rewrite Hmsgs, Hsplit.
    assert (Hws : widget_messages (before ++ w :: after) =
                  widget_messages before ++ [w]).
    { rewrite widget_messages_app. unfold widget_messages at 2. simpl.
      rewrite Hw. fold (widget_messages after). by rewrite Hafter. }
    rewrite Hws, widget_messages_app, Hafter, app_nil_r.
    rewrite removelast_last.
    rewrite !other_messages_app. unfold other_messages at 4. simpl.
    rewrite Hw. simpl. fold (other_messages after).
    repeat split; try done.
    + rewrite !length_app. simpl.
      destruct (widget_messages before ++ [w]) eqn:Hcase.
      * by apply app_eq_nil in Hcase as [_ ?].
      * lia.
    + intros Hnone. by apply app_eq_nil in Hnone as [_ ?].
Qed.

(** X18.  Opening a widget from the picker and removing it again gives the
    page back as it was, when the pointer named the most recent widget
    before. *)
Theorem handleAddWidget_then_remove
    (registry : registry_t) (id : string) (st : State) :
  pointer_invariant st →
  is_Some (getWidget registry id) →
  handleRemoveWidget (handleAddWidget registry id st) = st.
Proof.
  intros [Hok Hptr] [W HW]. unfold handleAddWidget. rewrite HW.
  set (w := {| role := widget; content := WidgetRendererElement (str id) None |}).
  set (st1 := setOpenWidgetUri _ _).
  destruct (handleRemoveWidget_removes_last st1)
    as [[Hnone _] | (before & w' & after & Hsplit & Hw' & Hafter & Hmsgs & Hnew)].
  - exfalso. unfold st1 in Hnone. simpl in Hnone.
    rewrite widget_messages_app in Hnone.
    by apply app_eq_nil in Hnone as [_ ?].
  - assert (Hlast : after = [] ∧ before = messages st).
    { unfold st1 in Hsplit. simpl in Hsplit.
      destruct after as [| a after _] using rev_ind.
      - apply app_inj_tail in Hsplit as [-> _]. done.
      - exfalso. rewrite app_comm_cons, app_assoc in Hsplit.
        apply app_inj_tail in Hsplit as [_ <-].
        rewrite widget_messages_app in Hafter.
        by apply app_eq_nil in Hafter as [_ ?]. }
    destruct Hlast as [-> ->]. rewrite app_nil_r in *.
    pose proof (handleRemoveWidget_frame st1) as (Hinput & Hloading & Hsession).
    rewrite last_widget_pointer in Hnew by done.
    unfold pointer_names_most_recent_widget in Hptr. rewrite <- Hptr in Hnew.
    destruct st as [msgs inp ld sid ptr].
    destruct (handleRemoveWidget st1) as [msgs' inp' ld' sid' ptr'].
    simpl in *. by subst.
Qed.

Lemma handleAddWidget_then_remove_witness :
  handleRemoveWidget
    (handleAddWidget Example.registry "wip://qr-code-scanner"
       Example.calendar_open) = Example.calendar_open.
Proof.
  apply handleAddWidget_then_remove.
  - split; [by repeat constructor | reflexivity].
  - by eexists.
Defined.

(** X22.  The full-screen flags are keyed by position and are not reset
    when a message goes away: a widget opened from the picker right after
    the most recent widget message, the last message of the log, was
    removed takes that position and is shown with the flag the removed
    widget had, so it opens in full-screen when that one was. *)
Theorem reopened_widget_keeps_flag
    (fullscreenWidgets : Fullscreen) (registry : registry_t) (id : string)
    (st : State) (before : list ChatMessage) (w : ChatMessage) :
  messages st = before ++ [ w ] → is_widget w = true →
  is_Some (getWidget registry id) →
  rendered fullscreenWidgets (messages st) =
    rendered fullscreenWidgets before ++
    [ (w, isFullscreen fullscreenWidgets (length before)) ] ∧
  rendered fullscreenWidgets
    (messages (handleAddWidget registry id (handleRemoveWidget st))) =
    rendered fullscreenWidgets before ++
    [ ({| role := widget; content := WidgetRendererElement (str id) None |},
       isFullscreen fullscreenWidgets (length before)) ].
Proof.
  intros Hsplit Hw [W HW].
  assert (Hremoved : messages (handleRemoveWidget st) = before).
  { destruct (handleRemoveWidget_removes_last st)
      as [[Hnone _] | (before' & w' & after' & Hsplit' & _ & Hafter' & -> & _)].
    - exfalso. rewrite Hsplit, widget_messages_app in Hnone.
      apply app_eq_nil in Hnone as [_ Hnone].
      unfold widget_messages in Hnone. simpl in Hnone. by rewrite Hw in Hnone.
    - rewrite Hsplit in Hsplit'.
      destruct after' as [| a after' _] using rev_ind.
      + apply app_inj_tail in Hsplit' as [-> _]. by rewrite app_nil_r.
      + exfalso. rewrite app_comm_cons, app_assoc in Hsplit'.
        apply app_inj_tail in Hsplit' as [_ ->].
        rewrite widget_messages_app in Hafter'.
        apply app_eq_nil in Hafter' as [_ Hafter'].
        unfold widget_messages in Hafter'. simpl in Hafter'.
        by rewrite Hw in Hafter'. }
  unfold handleAddWidget. rewrite HW. simpl. rewrite Hremoved, Hsplit.
  unfold rendered. rewrite !imap_app. simpl. by rewrite Nat.add_0_r.
Qed.

Lemma reopened_widget_keeps_flag_witness :
  rendered {[ 0 := true ]}
    (messages (handleAddWidget Example.registry "wip://qr-code-scanner"
                 (handleRemoveWidget Example.calendar_open))) =
  [ ({| role := widget;
        content := WidgetRendererElement (str "wip://qr-code-scanner") None |},
     true) ].
Proof.
  refine (proj2 (reopened_widget_keeps_flag {[ 0 := true ]} Example.registry
                   "wip://qr-code-scanner" Example.calendar_open []
                   {| role := widget;
                      content := WidgetRendererElement (str "wip://calendar") None |}
                   eq_refl eq_refl _)).
  by eexists.
Defined.

(* ===================================================================== *)
(** * Further properties: session start and the window controls            *)
(* ===================================================================== *)

(** X19.  Starting a session changes nothing but the session identifier,
    and changes it only to a string the server sent under [session_id]
    that is not blank: a failed call, a body without such a string and a
    blank string all leave the identifier as it was, so an identifier that
    is not blank never becomes blank. *)
Theorem startSession_session_id (response : StartResponse) (st : State) :
  let st' := startSession response st in
  messages st' = messages st ∧ input st' = input st ∧
  loading st' = loading st ∧ openWidgetUri st' = openWidgetUri st ∧
  (sessionId st' = sessionId st ∨
   ∃ data, response = StartBody data ∧
           get_prop data "session_id" = Normal (str (sessionId st')) ∧
           trim (sessionId st') ≠ "") ∧
  (trim (sessionId st) ≠ "" → trim (sessionId st') ≠ "").
Proof.
  simpl. unfold startSession.
  destruct response as [| | | data]; try by repeat split; auto.
  unfold session_id_of.
  destruct (truthy data); [| by repeat split; auto].
  destruct (get_prop data "session_id") as [| [[| | | id | |] |]] eqn:Hget;
    try by repeat split; auto.
  destruct (String.eqb (trim id) "") eqn:Hblank; [by repeat split; auto |].
  apply String.eqb_neq in Hblank. simpl.
  repeat split; [| done]. right. by exists data.
Qed.

(** X20.  The window controls act on one position: the green button flips
    the full-screen flag of its message and pressing it twice restores
    what is shown everywhere; the yellow button turns the flag off, also
    when pressed again; and neither changes the flag of another
    position. *)
Theorem fullscreen_controls (prev : Fullscreen) (idx other : nat) :
  isFullscreen (toggleFullscreen idx prev) idx = negb (isFullscreen prev idx) ∧
  (∀ i, isFullscreen (toggleFullscreen idx (toggleFullscreen idx prev)) i =
        isFullscreen prev i) ∧
  isFullscreen (shrink idx prev) idx = false ∧
  shrink idx (shrink idx prev) = shrink idx prev ∧
  shrink idx (toggleFullscreen idx prev) = shrink idx prev ∧
  (other ≠ idx →
   isFullscreen (toggleFullscreen idx prev) other = isFullscreen prev other ∧
   isFullscreen (shrink idx prev) other = isFullscreen prev other).
Proof.
  unfold toggleFullscreen, shrink, isFullscreen.
  split; [by rewrite lookup_insert_eq |].
  split.
  { intros i. rewrite insert_insert_eq.
    destruct (decide (idx = i)) as [-> | Hne].
    - rewrite !lookup_insert_eq. by destruct (prev !! i) as [[|] |].
    - by rewrite lookup_insert_ne. }
  split; [by rewrite lookup_insert_eq |].
  split; [by rewrite insert_insert_eq |].
  split; [by rewrite insert_insert_eq |].
  intros Hne. by rewrite !lookup_insert_ne.
Qed.

(** X21.  The shrink and full-screen buttons are offered exactly for a
    registered widget whose [visualization] is [both]: never for an
    identifier nobody registered, a name inherited from
    [Object.prototype] included. *)
Theorem showControls_iff (registry : registry_t) (id : string) :
  showControls registry id = true ↔
  id ≠ "" ∧ ∃ w, registry !! id = Some w ∧ visualization w = both.
Proof.
  unfold showControls, getWidget.
  destruct (String.eqb id "") eqn:Hid.
  - apply String.eqb_eq in Hid. split; [done | by intros [? _]].
  - apply String.eqb_neq in Hid.
    destruct (registry !! id) as [w |].
    + destruct (visualization w) eqn:Hv; split; try done.
      * intros [_ (w' & [= <-] & ?)]. congruence.
      * intros _. split; [done |]. by exists w.
      * intros [_ (w' & [= <-] & ?)]. congruence.
    + case_bool_decide; split; try done; by intros [_ (? & ? & _)].
Qed.

(* ===================================================================== *)
(** * Further properties: the widget picker                                *)
(* ===================================================================== *)

Section Picker.

Variables (registry : registry_t) (getIcon : icons_t).

Lemma menu_entry_uri id entry :
  menu_entry registry getIcon id = Some entry → entry_uri entry = id.
Proof.
  unfold menu_entry.
  destruct (getWidget registry id) as [[w | member] |]; by intros [= <-].
Qed.

Lemma menu_entry_listed id :
  is_Some (menu_entry registry getIcon id) ↔ is_Some (getWidget registry id).
Proof.
  unfold menu_entry.
  destruct (getWidget registry id) as [[w | member] |];
    split; intros [? ?]; by eauto.
Qed.

Lemma elem_of_menu entry keys :
  entry ∈ menu registry getIcon keys →
  entry_uri entry ∈ keys ∧ is_Some (getWidget registry (entry_uri entry)).
Proof.
  unfold menu. intros (id & Hid & Hentry)%list_elem_of_omap.
  pose proof (menu_entry_uri id entry Hentry) as ->.
  split; [done |]. apply menu_entry_listed. by eexists.
Qed.

End Picker.

(** X23.  The picker lists the keys it is given that resolve, in their
    order, each once per occurrence; when every key is registered, it
    lists them all. *)
Theorem menu_lists_resolving_keys
    (registry : registry_t) (getIcon : icons_t) (keys : list string) :
  map entry_uri (menu registry getIcon keys) =
    List.filter (λ id, bool_decide (is_Some (getWidget registry id))) keys ∧
  (Forall (λ id, is_Some (registry !! id)) keys →
   map entry_uri (menu registry getIcon keys) = keys).
Proof.
  assert (Hlist : map entry_uri (menu registry getIcon keys) =
    List.filter (λ id, bool_decide (is_Some (getWidget registry id))) keys).
  { unfold menu. induction keys as [| id keys IH]; [done |]. simpl.
    destruct (menu_entry registry getIcon id) as [entry |] eqn:Hentry.
    - rewrite bool_decide_eq_true_2
        by (apply (menu_entry_listed registry getIcon); by eexists).
      simpl. f_equal; [by eapply menu_entry_uri | exact IH].
    - rewrite bool_decide_eq_false_2; [exact IH |].
      intros Hsome. apply (menu_entry_listed registry getIcon) in Hsome.
      rewrite Hentry in Hsome. by destruct Hsome. }
  split; [exact Hlist |].
  intros Hall. rewrite Hlist. clear Hlist.
  induction Hall as [| id keys [w Hw] _ IH]; [done |]. simpl.
  rewrite bool_decide_eq_true_2; [by f_equal |].
  rewrite (getWidget_registered registry id w Hw). by eexists.
Qed.

(** The keys of [widgets/register.ts], in the order they are written. *)
Lemma menu_lists_resolving_keys_witness :
  map entry_uri
    (menu Example.registry (λ _, None)
       [ "wip://calendar"; "wip://qr-code-scanner";
         "wip://stock-level-inspector"; "wip://image-carousel" ]) =
  [ "wip://calendar"; "wip://qr-code-scanner";
    "wip://stock-level-inspector"; "wip://image-carousel" ].
Proof.
  apply menu_lists_resolving_keys.
  repeat constructor; by eexists.
Defined.

(** X24.  A broken icon never keeps a widget out of the picker: which
    entries are listed, and their names and descriptions, do not depend on
    what [getIcon] does; an icon function that throws, like a missing one,
    gives the placeholder glyph. *)
Theorem menu_independent_of_icons
    (registry : registry_t) (getIcon getIcon' : icons_t) (keys : list string) :
  map (λ e, (entry_uri e, entry_name e, entry_description e))
      (menu registry getIcon keys) =
  map (λ e, (entry_uri e, entry_name e, entry_description e))
      (menu registry getIcon' keys) ∧
  ∀ entry w,
    entry ∈ menu registry getIcon keys →
    registry !! entry_uri entry = Some w →
    getIcon w = Some Throws ∨ getIcon w = None →
    entry_icon entry = Placeholder.
Proof.
  split.
  - unfold menu. induction keys as [| id keys IH]; [done |]. simpl.
    assert (Hentry : ∀ g : icons_t,
              menu_entry registry g id =
              match getWidget registry id with
              | Some (Registered w) =>
                  Some {| entry_uri := id;
                          entry_name := or_else (widgetName w) id;
                          entry_description := or_else (description w) "";
                          entry_icon := entry_icon
                            (default {| entry_uri := id; entry_name := id;
                                        entry_description := "";
                                        entry_icon := Placeholder |}
                               (menu_entry registry g id)) |}
              | Some (Inherited _) =>
                  Some {| entry_uri := id; entry_name := id;
                          entry_description := ""; entry_icon := Placeholder |}
              | None => None
              end).
    { intros g. unfold menu_entry.
      by destruct (getWidget registry id) as [[w | member] |]. }
    rewrite (Hentry getIcon), (Hentry getIcon').
    destruct (getWidget registry id) as [[w | member] |]; simpl;
      [f_equal; exact IH | f_equal; exact IH | exact IH].
  - intros entry w Hin Hw Hicon.
    unfold menu in Hin. apply list_elem_of_omap in Hin as (id & _ & Hentry).
    pose proof (menu_entry_uri registry getIcon id entry Hentry) as Hid.
    subst id. unfold menu_entry in Hentry.
    rewrite (getWidget_registered registry _ w Hw) in Hentry.
    injection Hentry as <-. simpl.
    by destruct Hicon as [-> | ->].
Qed.

(** X25.  Selecting an entry of the picker always opens its widget: a
    widget message for the entry's identifier is appended to the log and
    the pointer is set to it (the guard of [handleAddWidget] cannot fire,
    the picker having made the same test). *)
Theorem menu_selection_opens
    (registry : registry_t) (getIcon : icons_t) (keys : list string)
    (entry : MenuEntry) (st : State) :
  entry ∈ menu registry getIcon keys →
  handleSelect registry entry st =
    {| messages :=
         messages st ++
         [ {| role := widget;
              content := WidgetRendererElement (str (entry_uri entry)) None |} ];
       input := input st; loading := loading st; sessionId := sessionId st;
       openWidgetUri := str (entry_uri entry) |}.
Proof.
  intros Hin.
  destruct (elem_of_menu registry getIcon entry keys Hin) as [_ [W HW]].
  unfold handleSelect, handleAddWidget. by rewrite HW.
Qed.

(** The calendar's entry, its icon function throwing. *)
Lemma menu_selection_opens_witness :
  let entry :=
    {| entry_uri := "wip://calendar"; entry_name := "Calendar";
       entry_description := "Visualize your calendar and add appointments";
       entry_icon := Placeholder |} in
  openWidgetUri (handleSelect Example.registry entry initial) =
    str "wip://calendar".
Proof.
  intros entry.
  refine (f_equal openWidgetUri
            (menu_selection_opens Example.registry (λ _, Some Throws)
               [ "wip://calendar" ] entry initial _)).
  change (entry ∈ [ entry ]). by constructor.
Defined.

(* ===================================================================== *)
(** * Further properties: what the widgets export                          *)
(* ===================================================================== *)

(** X26.  The QR scanner, the stock inspector and the image carousel
    export either nothing or a non-empty sentence: they export nothing
    until they have data (an empty string counts as none), and what they
    export is never held back by the orchestrator's emptiness test. *)
Theorem widget_contexts_pass_injection_test
    (data sku id url : option string) :
  let exported :=
    [ Widgets.QRScanner_getWidgetContext data;
      Widgets.ProductStock_getWidgetContext sku;
      Widgets.ImageCarousel_getWidgetContext id url ] in
  Forall (λ context, context = CtxUndefined ∨ context_nonempty context = true)
    exported ∧
  (Widgets.QRScanner_getWidgetContext data = CtxUndefined ↔
     truthy_str data = false) ∧
  (Widgets.ProductStock_getWidgetContext sku = CtxUndefined ↔
     truthy_str sku = false) ∧
  (Widgets.ImageCarousel_getWidgetContext id url = CtxUndefined ↔
     truthy_str id = false ∨ truthy_str url = false).
Proof.
  simpl.
  unfold Widgets.QRScanner_getWidgetContext,
    Widgets.ProductStock_getWidgetContext,
    Widgets.ImageCarousel_getWidgetContext.
  split; [| split; [| split]].
  - repeat (apply Forall_cons; split); [| | | constructor].
    + destruct (truthy_str data); [by right | by left].
    + destruct (truthy_str sku); [by right | by left].
    + destruct (truthy_str id && truthy_str url); [by right | by left].
  - by destruct (truthy_str data).
  - by destruct (truthy_str sku).
  - destruct (truthy_str id), (truthy_str url); simpl; naive_solver.
Qed.

(* ===================================================================== *)
(** * Further properties: the pointer over whole sessions                  *)
(* ===================================================================== *)

Section Sessions.

Implicit Types (st : State) (log : list ChatMessage) (msg : ReplyEntry).

Lemma reply_callback_assistant_typed msg st :
  uri_well_typed msg = true → is_assistant_entry msg = true →
  (openWidgetUri (fst (reply_callback msg st)) = None ∧
   log_ok (snd (reply_callback msg st)) ∧
   widget_messages (snd (reply_callback msg st)) = []) ∨
  (∃ s parameters rest,
      snd (reply_callback msg st) =
        {| role := widget; content := WidgetRendererElement (str s) parameters |}
        :: rest ∧
      widget_messages rest = [] ∧ log_ok rest ∧
      openWidgetUri (fst (reply_callback msg st)) = str s).
Proof.
  unfold uri_well_typed, decoded_field, is_assistant_entry,
    reply_callback, assistant_try.
  intros Htyped Hassistant. rewrite Hassistant.
  apply andb_prop in Hassistant as [Hrole _].
  apply String.eqb_eq in Hrole. rewrite Hrole. simpl.
  destruct (content_json msg) as [| v].
  { left. by repeat constructor. }
  destruct v as [| b | x | s | items | fields]; simpl in *;
    try (left; by repeat constructor).
  destruct (assoc "uri" fields) as [[| b | x | s | items | fields'] |];
    simpl in *; try done;
    try (apply negb_true_iff in Htyped; rewrite Htyped);
    try (destruct (truthy_val (assoc "text" fields));
         left; by repeat constructor).
  destruct (negb (String.eqb s "")).
  - right. destruct (truthy_val (assoc "text" fields));
      eexists s, _, _; by repeat constructor.
  - destruct (truthy_val (assoc "text" fields)); left; by repeat constructor.
Qed.

Lemma reply_callback_weak msg st log :
  uri_well_typed msg = true →
  log_ok log →
  openWidgetUri st = None ∨ openWidgetUri st = most_recent_widget log →
  log_ok (log ++ snd (reply_callback msg st)) ∧
  (openWidgetUri (fst (reply_callback msg st)) = None ∨
   openWidgetUri (fst (reply_callback msg st)) =
     most_recent_widget (log ++ snd (reply_callback msg st))).
Proof.
  intros Htyped Hok Hptr.
  destruct (is_assistant_entry msg) eqn:Hassistant.
  - destruct (reply_callback_assistant_typed msg st Htyped Hassistant)
      as [(Hnone & Hhere_ok & _)
         | (s & parameters & rest & Hsnd & Hrest & Hrest_ok & Hfst)].
    + split; [by apply log_ok_app | by left].
    + rewrite Hsnd, Hfst. split.
      * apply log_ok_app. split; [done |]. apply Forall_cons. by split.
      * right. rewrite (cons_middle _ log rest), app_assoc.
        rewrite most_recent_widget_app_none by done.
        by rewrite most_recent_widget_snoc_widget.
  - destruct (reply_callback_other msg st Hassistant)
      as (here & -> & Hhere & Hhere_ok). simpl. split.
    + by apply log_ok_app.
    + destruct Hptr as [? | Hptr]; [by left | right].
      by rewrite most_recent_widget_app_none.
Qed.

Lemma flatMap_weak data st log :
  forallb uri_well_typed data = true →
  log_ok log →
  openWidgetUri st = None ∨ openWidgetUri st = most_recent_widget log →
  log_ok (log ++ snd (flatMap data st)) ∧
  (openWidgetUri (fst (flatMap data st)) = None ∨
   openWidgetUri (fst (flatMap data st)) =
     most_recent_widget (log ++ snd (flatMap data st))).
Proof.
  revert st log. induction data as [| msg data IH]; intros st log Hall Hok Hptr.
  - simpl. by rewrite app_nil_r.
  - simpl in Hall. apply andb_prop in Hall as [Hmsg Hall].
    destruct (reply_callback_weak msg st log Hmsg Hok Hptr) as [Hok1 Hptr1].
    simpl. destruct (reply_callback msg st) as [st1 here]. simpl in *.
    specialize (IH st1 (log ++ here) Hall Hok1 Hptr1).
    destruct (flatMap data st1) as [st2 there]. simpl in *.
    by rewrite app_assoc.
Qed.

Lemma sendMessage_weak world st :
  op_well_typed (Reply (input st) world) = true →
  weak_invariant st → weak_invariant (fst (sendMessage world st)).
Proof.
  intros Htyped [Hok Hptr].
  destruct (decide (trim (input st) = "" ∨ loading st = true)) as [Hblocked | Hruns].
  { rewrite sendMessage_blocked by done. by split. }
  assert (Htyped' : trim (input st) ≠ "") by tauto.
  assert (Hidle : loading st = false).
  { destruct (loading st); [tauto | done]. }
  rewrite sendMessage_running by done.
  set (log1 := messages st ++ [ user_message st ]).
  assert (Hok1 : log_ok log1).
  { apply log_ok_app. split; [done |]. by repeat constructor. }
  assert (Hptr1 : openWidgetUri (submitted st) = None ∨
                  openWidgetUri (submitted st) = most_recent_widget log1).
  { destruct Hptr as [? | Hptr]; [by left | right].
    unfold log1. by rewrite most_recent_widget_app_none. }
  simpl in Htyped.
  destruct (chat_response world) as [| | | [data |] | before]; simpl;
    [| | | | | done].
  1-3: split; simpl;
    [ apply log_ok_app; split; [exact Hok1 | by repeat constructor]
    | unfold pointer_null_or_most_recent, pointer_names_most_recent_widget;
      simpl; destruct Hptr1 as [? | Hptr1]; [by left | right];
      by rewrite most_recent_widget_app_none ].
  - destruct (flatMap_weak data (submitted st) log1 Htyped Hok1 Hptr1)
      as [Hok2 Hptr2].
    pose proof (flatMap_same_but_pointer data (submitted st)) as (Hmsgs & _).
    destruct (flatMap data (submitted st)) as [st2 newMsgs]. simpl in *.
    change (messages st ++ [ user_message st ]) with log1 in Hmsgs.
    split; simpl; [by rewrite Hmsgs |].
    unfold pointer_null_or_most_recent, pointer_names_most_recent_widget.
    simpl. rewrite Hmsgs.
    destruct Hptr2 as [? | Hptr2]; [by left | by right].
  - by split.
Qed.

Lemma apply_op_weak registry st op :
  op_well_typed op = true →
  weak_invariant st → weak_invariant (apply_op registry st op).
Proof.
  destruct op as [id | | typed world]; intros Htyped Hinv.
  - unfold apply_op, handleAddWidget.
    destruct (getWidget registry id); [| done].
    destruct Hinv as [Hok _]. split; simpl.
    + apply log_ok_app. split; [done |]. by repeat constructor.
    + right. unfold pointer_names_most_recent_widget. simpl.
      by rewrite most_recent_widget_snoc_widget.
  - simpl.
    destruct (handleRemoveWidget_removes_last st)
      as [[Hnone Hsame] | (before & w & after & Hsplit & _ & _ & Hmsgs & Hnew)].
    + by rewrite Hsame.
    + destruct Hinv as [Hok _].
      assert (Hok' : log_ok (before ++ after)).
      { rewrite Hsplit in Hok. apply log_ok_app in Hok as [Hb Ha].
        apply log_ok_app. split; [done |]. by inversion Ha. }
      split; [by rewrite Hmsgs |]. right.
      unfold pointer_names_most_recent_widget.
      rewrite Hnew, Hmsgs. by apply last_widget_pointer.
  - simpl. apply sendMessage_weak; [| done]. exact Htyped.
Qed.

End Sessions.

(** X27.  Over a whole session (picker, removals, and turns whatever the
    outside world does, the replies naming widgets by strings), the
    pointer never names a widget other than the most recent one in the
    log: after each operation it is [null] or the identifier of the most
    recent widget message. *)
Theorem openWidgetUri_null_or_most_recent
    (registry : registry_t) (ops : list Op) :
  forallb op_well_typed ops = true →
  Forall pointer_null_or_most_recent (states registry initial ops).
Proof.
  intros Hops.
  enough (H : ∀ st, weak_invariant st →
                Forall pointer_null_or_most_recent (states registry st ops)).
  { apply H. split; [constructor | by left]. }
  induction ops as [| op ops IH]; intros st Hinv; simpl.
  - constructor.
  - simpl in Hops. apply andb_prop in Hops as [Hop Hops].
    pose proof (apply_op_weak registry st op Hop Hinv) as Hinv'.
    constructor; [apply Hinv' | by apply IH].
Qed.

(** The example session, followed by a text-only turn and a removal. *)
Lemma openWidgetUri_null_or_most_recent_witness :
  Forall pointer_null_or_most_recent
    (states Example.registry initial
       [ AddWidget "wip://calendar";
         Reply "thanks"
           (Example.answering Throws [ Example.widget_reply "" "welcome" ]);
         RemoveWidget ]).
Proof. apply openWidgetUri_null_or_most_recent. reflexivity. Defined.

(** X28.  When the parent changes the identifier of a mounted renderer,
    the new widget's [initWidget] receives the parameters the renderer
    holds at that moment (those it was mounted with, or the last value
    given to [setParams]), not the parameter list that came with the new
    identifier. *)
Theorem initWidget_receives_held_params
    (registry : registry_t) (props next : Props) (events : list Event) :
  init_log (run registry (mount registry props) (events ++ [ Rerender next ])) =
  init_log (run registry (mount registry props) events) ++
  (if negb (String.eqb (uri next) (current_uri props events))
      && has_initWidget (getWidget registry (uri next))
   then [ {| init_uri := uri next;
             init_params := default (paramObj (parameters props))
                              (last (set_values events)) |} ]
   else []).
Proof.
  rewrite run_snoc. simpl.
  pose proof (run_deps_current registry events (mount registry props)
                (mount_deps_current registry props)) as Hdeps.
  unfold deps_current in Hdeps.
  by rewrite Hdeps, run_cur_props, run_state_params.
Qed.
